(** * BeagleTrinket: IR beacon proximity alert for the ATtiny85

    A shallow embedding of [BeagleTrinket.ino] and the properties of its
    pulse sampler, code decoder, trigger counter, power management, timer
    set-up and tone generator.

    Conventions of the embedding.

    - The sketch targets the ATtiny85 (avr-gcc): [int] and [unsigned int]
      are 16 bits wide, [uint8_t], [uint16_t] and [uint32_t] are 8, 16 and
      32 bits.  Every machine integer is a [Z] and each store or unsigned
      operation writes its wrap-around out ([wrap8], [wrap16], [wrap32]).
    - The sensor pin is a volatile register: every evaluation of
      [IRpin_PIN & _BV(IRpin)] is one fresh sample.  The input of a capture
      is therefore the list of levels seen by the successive reads.
    - [millis()] is the 32-bit millisecond clock; the handlers receive the
      real elapsed time and read it through [millis].
    - The two interrupt handlers are atomic events between loop cycles. *)

From Stdlib Require Import ZArith Bool Lia.
From stdpp Require Import base list.

Local Open Scope Z_scope.

(** ** Machine integers *)

Definition wrap8 (z : Z) : Z := z mod 2 ^ 8.
Definition wrap16 (z : Z) : Z := z mod 2 ^ 16.
Definition wrap32 (z : Z) : Z := z mod 2 ^ 32.

(** ** Configuration (the #define block) *)

Definition MAXPULSE : Z := 5000.
Definition NUMPULSES : Z := 100.
Definition RESOLUTION : Z := 2.
Definition sensitivity : Z := 6.
Definition sleepTimeout : Z := 4000.
Definition targetCode : Z := 0xFFFFFFFF.

(** [uint16_t pulses[100][2]]: one (high, low) pair per slot. *)
Abbreviation buffer := (list (Z * Z)) (only parsing).

(** Globals are zero-initialised. *)
Definition blank : buffer := replicate 100 (0, 0).

(** ** Pulse sampler: [listenForIR] *)

Module Capture.

(** Which of the two inner [while] loops is about to read the pin. *)
Inductive phase : Type := InHigh | InLow.

Record state : Type := mk {
  pc : phase;
  currentpulse : Z;
  highpulse : Z;
  lowpulse : Z;
  pulses : buffer
}.

Inductive outcome : Type :=
| Polling (s : state)                 (* still inside [listenForIR] *)
| Returned (n : Z) (buf : buffer)     (* [return currentpulse] *)
| OutOfBounds (idx : Z).              (* a store past [pulses[99]] *)

(** The common exit test of both inner loops:
    [((pulse >= MAXPULSE) && (currentpulse != 0)) || currentpulse == NUMPULSES]. *)
Definition exit_test (pulse cp : Z) : bool :=
  ((MAXPULSE <=? pulse) && negb (cp =? 0)) || (cp =? NUMPULSES).

(** [pulses[cp][0] = v]; [None] when the slot does not exist. *)
Definition store_high (cp v : Z) (buf : buffer) : option buffer :=
  if cp <? 0 then None else
  match buf !! Z.to_nat cp with
  | Some p => Some (<[Z.to_nat cp := (v, p.2)]> buf)
  | None => None
  end.

(** [pulses[cp][1] = v]. *)
Definition store_low (cp v : Z) (buf : buffer) : option buffer :=
  if cp <? 0 then None else
  match buf !! Z.to_nat cp with
  | Some p => Some (<[Z.to_nat cp := (p.1, v)]> buf)
  | None => None
  end.

(** One read of the pin and everything up to the next read. *)
Definition step (s : state) (level : bool) : outcome :=
  match pc s, level with
  | InHigh, true =>
      (* body of the high loop *)
      let h := wrap16 (highpulse s + 1) in
      if exit_test h (currentpulse s)
      then Returned (currentpulse s) (pulses s)
      else Polling (mk InHigh (currentpulse s) h (lowpulse s) (pulses s))
  | InHigh, false =>
      (* the high loop is left; pulses[currentpulse][0] = highpulse *)
      match store_high (currentpulse s) (highpulse s) (pulses s) with
      | Some buf => Polling (mk InLow (currentpulse s) (highpulse s) (lowpulse s) buf)
      | None => OutOfBounds (currentpulse s)
      end
  | InLow, false =>
      (* body of the low loop *)
      let l := wrap16 (lowpulse s + 1) in
      if exit_test l (currentpulse s)
      then Returned (currentpulse s) (pulses s)
      else Polling (mk InLow (currentpulse s) (highpulse s) l (pulses s))
  | InLow, true =>
      (* the low loop is left; pulses[currentpulse][1] = lowpulse;
         currentpulse++; next round of while (1) *)
      match store_low (currentpulse s) (lowpulse s) (pulses s) with
      | Some buf => Polling (mk InHigh (wrap16 (currentpulse s + 1)) 0 0 buf)
      | None => OutOfBounds (currentpulse s)
      end
  end.

(** The sampler driven by the levels of the successive reads. *)
Fixpoint listen (s : state) (levels : list bool) : outcome :=
  match levels with
  | [] => Polling s
  | b :: rest =>
      match step s b with
      | Polling s' => listen s' rest
      | done => done
      end
  end.

(** Entry of [listenForIR]: [currentpulse = 0], both counters cleared. *)
Definition start (buf : buffer) : state := mk InHigh 0 0 0 buf.

Definition listenForIR (buf : buffer) (levels : list bool) : outcome :=
  listen (start buf) levels.

(** A round of [while (1)] is about to start. *)
Definition fresh (cp : Z) (buf : buffer) : state := mk InHigh cp 0 0 buf.

End Capture.

(** ** Code decoder: the [for] loop of [loop] *)

Module Decoder.

(** [pulses[i][0]]; the loop only reads slots 0..31 of the 100. *)
Definition high_at (buf : buffer) (i : nat) : Z :=
  match buf !! i with
  | Some p => p.1
  | None => 0
  end.

(** [pulses[i][0] * RESOLUTION], an [unsigned int] product. *)
Definition duration (t : Z) : Z := wrap16 (t * RESOLUTION).

(** The bit or-ed into [irCode] for a recorded high count [t]. *)
Definition bit_of (t : Z) : Z :=
  if (0 <? duration t) && (duration t <? 500) then 0 else 1.

(** One iteration: [irCode = irCode << 1; irCode |= bit]. *)
Definition shift_in (buf : buffer) (irCode : Z) (i : nat) : Z :=
  Z.lor (wrap32 (Z.shiftl irCode 1)) (bit_of (high_at buf i)).

(** [for (int i = 0; i < 32; i++)], entered with [irCode]. *)
Definition decode (buf : buffer) (irCode : Z) : Z :=
  fold_left (shift_in buf) (seq 0 32) irCode.

End Decoder.

(** ** The device: globals and the registers the sketch drives *)

Record device : Type := mkDevice {
  pulses : buffer;
  irCode : Z;
  trigger : Z;            (* uint8_t *)
  triggerTimer : Z;       (* volatile uint32_t *)
  prescalarBits : Z;
  TCCR1 : Z;
  pcint : bool;           (* GIMSK holds _BV(PCIE) *)
  led : bool;
  timers_on : bool;       (* timer0 and timer1 powered *)
  usi_on : bool
}.

(** [millis()] seen from real elapsed milliseconds. *)
Definition millis (clock : Z) : Z := wrap32 clock.

(** Idle time as the timer handler computes it: [millis() - triggerTimer]. *)
Definition idle (clock : Z) (d : device) : Z :=
  wrap32 (millis clock - triggerTimer d).

(** ** Trigger counter: the tail of [loop] *)

Module Trigger.

Definition with_trigger (t : Z) (d : device) : device :=
  mkDevice (pulses d) (irCode d) t (triggerTimer d) (prescalarBits d)
           (TCCR1 d) (pcint d) (led d) (timers_on d) (usi_on d).

Definition with_triggerTimer (t : Z) (d : device) : device :=
  mkDevice (pulses d) (irCode d) (trigger d) t (prescalarBits d)
           (TCCR1 d) (pcint d) (led d) (timers_on d) (usi_on d).

(** [if (irCode == 0xFFFFFFFF) { ... }]; the boolean is the call of [beep]. *)
Definition on_match (clock : Z) (d : device) : device * bool :=
  if irCode d =? targetCode then
    let d1 := with_triggerTimer (millis clock) d in
    let d2 := with_trigger (wrap8 (trigger d1 + 2)) d1 in
    (d2, sensitivity <=? trigger d2)
  else (d, false).

(** [if (trigger >= 1) trigger--;] *)
Definition decay (d : device) : device :=
  if 1 <=? trigger d then with_trigger (wrap8 (trigger d - 1)) d else d.

(** Everything after the decode loop, for the code now in [irCode]. *)
Definition judge (clock : Z) (d : device) : device * bool :=
  let (d1, beeped) := on_match clock d in (decay d1, beeped).

Definition with_irCode (c : Z) (d : device) : device :=
  mkDevice (pulses d) c (trigger d) (triggerTimer d) (prescalarBits d)
           (TCCR1 d) (pcint d) (led d) (timers_on d) (usi_on d).

(** A loop cycle whose decode produced [code]. *)
Definition cycle (d : device) (code_clock : Z * Z) : device * bool :=
  judge code_clock.2 (with_irCode code_clock.1 d).

(** Consecutive cycles; the device after the last one. *)
Definition cycles (d : device) (l : list (Z * Z)) : device :=
  fold_left (fun d cc => (cycle d cc).1) l d.

(** The calls of [beep] over consecutive cycles, oldest first. *)
Fixpoint beeps (d : device) (l : list (Z * Z)) : list bool :=
  match l with
  | [] => []
  | cc :: rest => (cycle d cc).2 :: beeps (cycle d cc).1 rest
  end.

End Trigger.

(** ** One pass of [loop] *)

Definition with_pulses (buf : buffer) (d : device) : device :=
  mkDevice buf (irCode d) (trigger d) (triggerTimer d) (prescalarBits d)
           (TCCR1 d) (pcint d) (led d) (timers_on d) (usi_on d).

(** [levels] are the pin reads of the capture, [clock] the time when the
    code is judged.  [None]: the capture has not returned on [levels], or
    it stored past the buffer. *)
Definition loop (levels : list bool) (clock : Z) (d : device) : option (device * bool) :=
  match Capture.listenForIR (pulses d) levels with
  | Capture.Returned n buf =>
      let code := Decoder.decode buf n in
      Some (Trigger.judge clock (Trigger.with_irCode code (with_pulses buf d)))
  | _ => None
  end.

(** ** Power management: [naptime] and the TIMER1 compare handler *)

Module Power.

(** [naptime] down to [sleep_mode()]: the core halts here. *)
Definition doze (d : device) : device :=
  mkDevice (pulses d) (irCode d) 0 (triggerTimer d) (prescalarBits d)
           (Z.lor 0x80 (prescalarBits d)) true false false false.

(** [naptime] after [sleep_mode()] returns. *)
Definition rouse (d : device) : device :=
  mkDevice (pulses d) (irCode d) (trigger d) (triggerTimer d) (prescalarBits d)
           (Z.lor 0x90 (prescalarBits d)) false (led d) true true.

Definition naptime (d : device) : device := rouse (doze d).

(** What a firing of the handler did. *)
Inductive verdict : Type :=
| Awake                      (* guard false: nothing happens *)
| Napped (observed : Z).     (* [naptime()] ran; the idle time it saw *)

(** [ISR(TIMER1_COMPA_vect)] firing at [clock]; when it naps, [woke] is
    the time at which [sleep_mode()] returns. *)
Definition ISR_TIMER1_COMPA (clock woke : Z) (d : device) : device * verdict :=
  if sleepTimeout <=? idle clock d
  then (Trigger.with_triggerTimer (millis woke) (naptime d), Napped (idle clock d))
  else (d, Awake).

(** What can happen to the device once [setup] is done.  A [Cycle] is a
    completed pass of [loop]; levels on which the capture does not return
    make no pass and leave the device as it was. *)
Inductive event : Type :=
| Cycle (levels : list bool) (clock : Z)   (* a pass of [loop] *)
| Tick (clock woke : Z).                   (* the timer handler fires *)

Definition react (d : device) (e : event) : device * verdict :=
  match e with
  | Cycle levels clock =>
      match loop levels clock d with
      | Some (d', _) => (d', Awake)
      | None => (d, Awake)
      end
  | Tick clock woke => ISR_TIMER1_COMPA clock woke d
  end.

(** An execution: the device at the end and the verdict of every event. *)
Fixpoint execute (d : device) (es : list event) : device * list verdict :=
  match es with
  | [] => (d, [])
  | e :: rest =>
      let (d1, v) := react d e in
      let (d2, vs) := execute d1 rest in
      (d2, v :: vs)
  end.

End Power.

(** ** Vocabulary of the statements *)

(** What holds of the sampler between two reads of the pin. *)
Definition sane (s : Capture.state) : Prop :=
  0 <= Capture.currentpulse s < 65536 /\
  0 <= Capture.highpulse s < 65536 /\
  0 <= Capture.lowpulse s < 65536 /\
  length (Capture.pulses s) = 100%nat /\
  (Capture.pc s = Capture.InHigh -> Capture.lowpulse s = 0) /\
  (Capture.pc s = Capture.InLow -> Capture.currentpulse s < NUMPULSES) /\
  (Capture.currentpulse s <> 0 ->
   Capture.highpulse s < MAXPULSE /\ Capture.lowpulse s < MAXPULSE).

(** The level seen by [n] successive reads of a line that does not move. *)
Definition held (level : bool) (n : nat) : list bool := replicate n level.

(** A line that flips between any two reads: a hundred empty pairs, then
    one more low read. *)
Definition glitches : list bool :=
  concat (replicate 100 [false; true]) ++ [false].

(** A regular train of a hundred pairs whose last low pulse ends in a
    high spike one read long. *)
Definition spike : list bool :=
  held true 2 ++ concat (replicate 99 (held false 3 ++ held true 3))
  ++ held false 3 ++ [true; false].

(** The device when [setup] returns at [clock] (with the prescaler bits
    and compare value that [setPrescalar] chose). *)
Definition power_on (clock bits : Z) : device :=
  mkDevice blank 0 0 (millis clock) bits (Z.lor 0x90 bits) false false true true.

(** ** Timer set-up: [setPrescalar] and [setup] *)

Module Timer.

Definition BPM : Z := 260.

(** [uint32_t ocr = (F_CPU)/(BPM/30)]: the initial compare value, for the
    clock frequency the sketch is built with. *)
Definition ocr_init (F_CPU : Z) : Z := wrap32 (F_CPU / (BPM / 30)).

(** [while (ocr>255) { prescalarBits++; ocr /=2; }], at most [fuel]
    rounds; [None] when the fuel runs out with the test still true. *)
Fixpoint scan (fuel : nat) (ocr prescalarBits : Z) : option (Z * Z) :=
  if 255 <? ocr then
    match fuel with
    | O => None
    | S fuel' => scan fuel' (ocr / 2) (wrap8 (prescalarBits + 1))
    end
  else Some (ocr, prescalarBits).

(** What [setPrescalar] leaves in the globals and the timer registers. *)
Record timer1 : Type := mkTimer1 {
  ocr : Z;
  bits : Z;              (* prescalarBits *)
  tccr1 : Z;             (* TCCR1 = 0x90 | prescalarBits *)
  ocr1c : Z;             (* OCR1C = ocr-1, an 8-bit register *)
  ocie1a : bool          (* bitWrite(TIMSK, OCIE1A, 1) *)
}.

Definition setPrescalar (ocr0 prescalarBits0 : Z) : option timer1 :=
  match scan 32 ocr0 prescalarBits0 with
  | Some (o, b) => Some (mkTimer1 o b (Z.lor 0x90 b) (wrap8 (o - 1)) true)
  | None => None
  end.


End Timer.

(** ** Tone generator: [beep] *)

Module Sound.

(** What [beep] does to the outside. *)
Inductive action : Type :=
| Drive (pin : Z) (level : bool)     (* digitalWrite(pin, level) *)
| Wait (us : Z).                     (* delayMicroseconds(us) *)

(** A value a [long] can hold. *)
Definition fits_long (z : Z) : bool := (- 2 ^ 31 <=? z) && (z <? 2 ^ 31).

(** The body of the [for] loop, [n] times. *)
Fixpoint square (n : nat) (pin us : Z) : list action :=
  match n with
  | O => []
  | S n' => Drive pin true :: Wait us :: Drive pin false :: Wait us :: square n' pin us
  end.

(** [beep]; [None] where C leaves the behaviour undefined: a division by
    zero, an overflowing [long] product, or the [int] counter [x] stepping
    past 32767. *)
Definition beep (speakerPin frequencyInHertz timeInMilliseconds : Z)
  : option (list action) :=
  if frequencyInHertz =? 0 then None else
  let delayAmount := Z.quot 1000000 frequencyInHertz in
  if negb (fits_long (timeInMilliseconds * 1000)) then None else
  if delayAmount * 2 =? 0 then None else
  let loopTime := Z.quot (timeInMilliseconds * 1000) (delayAmount * 2) in
  if 32767 <? loopTime then None else
  Some (square (Z.to_nat loopTime) speakerPin (wrap16 delayAmount)).

(** Microseconds spent in [delayMicroseconds]. *)
Fixpoint waited (l : list action) : Z :=
  match l with
  | [] => 0
  | Wait us :: rest => us + waited rest
  | Drive _ _ :: rest => waited rest
  end.

(** Rising edges driven on [pin]. *)
Fixpoint rises (pin : Z) (l : list action) : Z :=
  match l with
  | [] => 0
  | Drive p true :: rest => (if p =? pin then 1 else 0) + rises pin rest
  | _ :: rest => rises pin rest
  end.

End Sound.

(** ** Vocabulary of the further statements *)

(** The reads that make the sampler record the pair [(h, l)]: [h] high
    reads, the low read that ends the high loop, [l] more low reads, the
    high read that ends the low loop. *)
Definition pair_reads (p : Z * Z) : list bool :=
  held true (Z.to_nat p.1) ++ [false] ++ held false (Z.to_nat p.2) ++ [true].

(** A pulse train, pair after pair. *)
Definition train (ps : list (Z * Z)) : list bool :=
  concat (map pair_reads ps).

(** A pair the sampler can record unchanged at pair index [cp]: 16-bit
    counts in slot 0, counts below [MAXPULSE] further on. *)
Definition recordable (cp : Z) (p : Z * Z) : Prop :=
  if cp =? 0
  then 0 <= p.1 < 65536 /\ 0 <= p.2 < 65536
  else 0 <= p.1 < MAXPULSE /\ 0 <= p.2 < MAXPULSE.

(** What a session that started from the buffer [buf0] has made of it:
    the pair index stays within the buffer, the slots of completed later
    pairs hold counts below [MAXPULSE], the slots past the current one are
    untouched, and of the current slot only the high count may have been
    written (by the high loop that was just left). *)
Definition kept (buf0 : buffer) (s : Capture.state) : Prop :=
  sane s /\
  0 <= Capture.currentpulse s <= NUMPULSES /\
  (forall (i : nat) p,
      (1 <= i)%nat -> Z.of_nat i < Capture.currentpulse s ->
      Capture.pulses s !! i = Some p ->
      0 <= p.1 < MAXPULSE /\ 0 <= p.2 < MAXPULSE) /\
  (forall i : nat,
      Capture.currentpulse s < Z.of_nat i ->
      Capture.pulses s !! i = buf0 !! i) /\
  snd <$> (Capture.pulses s !! Z.to_nat (Capture.currentpulse s))
    = snd <$> (buf0 !! Z.to_nat (Capture.currentpulse s)) /\
  (Capture.pc s = Capture.InHigh ->
   Capture.pulses s !! Z.to_nat (Capture.currentpulse s)
   = buf0 !! Z.to_nat (Capture.currentpulse s)) /\
  (Capture.pc s = Capture.InLow ->
   fst <$> (Capture.pulses s !! Z.to_nat (Capture.currentpulse s))
   = Some (Capture.highpulse s)).


(** * Properties *)

(** ** Wrap-around arithmetic *)

Lemma wrap16_small z : 0 <= z < 65536 -> wrap16 z = z.
Proof. intros H. unfold wrap16. apply Z.mod_small. lia. Qed.

Lemma wrap16_range z : 0 <= wrap16 z < 65536.
Proof. unfold wrap16. apply Z.mod_pos_bound. lia. Qed.

Lemma wrap16_succ z : wrap16 (wrap16 z + 1) = wrap16 (z + 1).
Proof. unfold wrap16. apply Z.add_mod_idemp_l. lia. Qed.

Lemma wrap8_small z : 0 <= z < 256 -> wrap8 z = z.
Proof. intros H. unfold wrap8. apply Z.mod_small. lia. Qed.

Lemma wrap32_small z : 0 <= z < 4294967296 -> wrap32 z = z.
Proof. intros H. unfold wrap32. apply Z.mod_small. lia. Qed.

Lemma wrap32_range z : 0 <= wrap32 z < 4294967296.
Proof. unfold wrap32. apply Z.mod_pos_bound. lia. Qed.

(** ** The sampler *)

Section CaptureFacts.
Import Capture.

Lemma exit_test_first p : exit_test p 0 = false.
Proof. unfold exit_test. rewrite andb_false_r. reflexivity. Qed.

Lemma exit_test_short p cp :
  p < MAXPULSE -> cp <> NUMPULSES -> exit_test p cp = false.
Proof.
  intros Hp Hc. unfold exit_test.
  apply orb_false_iff; split.
  - apply andb_false_iff; left. apply Z.leb_gt. exact Hp.
  - apply Z.eqb_neq. exact Hc.
Qed.

Lemma exit_test_long p cp : MAXPULSE <= p -> cp <> 0 -> exit_test p cp = true.
Proof.
  intros Hp Hc. unfold exit_test.
  apply orb_true_iff; left. apply andb_true_iff; split.
  - apply Z.leb_le. exact Hp.
  - apply negb_true_iff, Z.eqb_neq. exact Hc.
Qed.

Lemma exit_test_full p : exit_test p NUMPULSES = true.
Proof. unfold exit_test. rewrite Z.eqb_refl. apply orb_true_r. Qed.

(** While the exit test stays false, the counter just follows. *)
Lemma exit_test_false_inv p cp :
  exit_test p cp = false -> cp <> NUMPULSES /\ (cp = 0 \/ p < MAXPULSE).
Proof.
  unfold exit_test. intros H.
  apply orb_false_iff in H as [H1 H2].
  apply Z.eqb_neq in H2. split; [exact H2|].
  apply andb_false_iff in H1 as [H1|H1].
  - right. apply Z.leb_gt. exact H1.
  - left. apply negb_false_iff, Z.eqb_eq in H1. exact H1.
Qed.

Lemma listen_app s l1 l2 :
  listen s (l1 ++ l2) =
  match listen s l1 with
  | Polling s' => listen s' l2
  | done => done
  end.
Proof.
  revert s. induction l1 as [|b l1 IH]; intros s; [reflexivity|].
  cbn [app listen]. destruct (step s b); auto.
Qed.

(** A line held high keeps the high loop spinning while its exit test
    fails: always for the first pair, below [MAXPULSE] afterwards. *)
Lemma high_held n : forall cp h l buf,
  cp <> NUMPULSES -> (cp = 0 \/ wrap16 h + Z.of_nat n < MAXPULSE) ->
  listen (mk InHigh cp (wrap16 h) l buf) (replicate n true)
  = Polling (mk InHigh cp (wrap16 (h + Z.of_nat n)) l buf).
Proof.
  induction n as [|n IH]; intros cp h l buf Hc Hn.
  - simpl. rewrite Z.add_0_r. reflexivity.
  - cbn [replicate listen]. unfold step; cbn [pc highpulse currentpulse lowpulse pulses].
    rewrite wrap16_succ.
    assert (G : exit_test (wrap16 (h + 1)) cp = false).
    { destruct Hn as [->|Hn]; [apply exit_test_first|].
      apply exit_test_short; [|exact Hc].
      pose proof (wrap16_range h).
      rewrite <- wrap16_succ. rewrite wrap16_small; unfold MAXPULSE in *; lia. }
    rewrite G, IH.
    + do 3 f_equal. lia.
    + exact Hc.
    + destruct Hn as [->|Hn]; [now left|right].
      pose proof (wrap16_range h).
      rewrite <- wrap16_succ. rewrite wrap16_small; unfold MAXPULSE in *; lia.
Qed.

(** The same for the low loop. *)
Lemma low_held n : forall cp h l buf,
  cp <> NUMPULSES -> (cp = 0 \/ wrap16 l + Z.of_nat n < MAXPULSE) ->
  listen (mk InLow cp h (wrap16 l) buf) (replicate n false)
  = Polling (mk InLow cp h (wrap16 (l + Z.of_nat n)) buf).
Proof.
  induction n as [|n IH]; intros cp h l buf Hc Hn.
  - simpl. rewrite Z.add_0_r. reflexivity.
  - cbn [replicate listen]. unfold step; cbn [pc highpulse currentpulse lowpulse pulses].
    rewrite wrap16_succ.
    assert (G : exit_test (wrap16 (l + 1)) cp = false).
    { destruct Hn as [->|Hn]; [apply exit_test_first|].
      apply exit_test_short; [|exact Hc].
      pose proof (wrap16_range l).
      rewrite <- wrap16_succ. rewrite wrap16_small; unfold MAXPULSE in *; lia. }
    rewrite G, IH.
    + do 3 f_equal. lia.
    + exact Hc.
    + destruct Hn as [->|Hn]; [now left|right].
      pose proof (wrap16_range l).
      rewrite <- wrap16_succ. rewrite wrap16_small; unfold MAXPULSE in *; lia.
Qed.

(** Past the first pair a high level cannot last: the high loop returns
    on the read that brings the counter to [MAXPULSE] (at once when the
    buffer is full). *)
Lemma high_timeout n : forall cp h l buf,
  cp <> 0 -> 0 <= h < MAXPULSE -> (MAXPULSE - h <= Z.of_nat n) ->
  listen (mk InHigh cp h l buf) (replicate n true) = Returned cp buf.
Proof.
  induction n as [|n IH]; intros cp h l buf Hc Hh Hn.
  - unfold MAXPULSE in *; lia.
  - cbn [replicate listen]. unfold step; cbn [pc highpulse currentpulse lowpulse pulses].
    rewrite wrap16_small by (unfold MAXPULSE in *; lia).
    destruct (exit_test (h + 1) cp) eqn:G; [reflexivity|].
    apply exit_test_false_inv in G as [_ [G|G]]; [contradiction|].
    apply IH; [exact Hc| |]; unfold MAXPULSE in *; lia.
Qed.

Lemma low_timeout n : forall cp h l buf,
  cp <> 0 -> 0 <= l < MAXPULSE -> (MAXPULSE - l <= Z.of_nat n) ->
  listen (mk InLow cp h l buf) (replicate n false) = Returned cp buf.
Proof.
  induction n as [|n IH]; intros cp h l buf Hc Hl Hn.
  - unfold MAXPULSE in *; lia.
  - cbn [replicate listen]. unfold step; cbn [pc highpulse currentpulse lowpulse pulses].
    rewrite wrap16_small by (unfold MAXPULSE in *; lia).
    destruct (exit_test (l + 1) cp) eqn:G; [reflexivity|].
    apply exit_test_false_inv in G as [_ [G|G]]; [contradiction|].
    apply IH; [exact Hc| |]; unfold MAXPULSE in *; lia.
Qed.

(** Stores into an existing slot succeed and keep the buffer's size. *)
Lemma store_high_ok cp v (buf : buffer) :
  0 <= cp < Z.of_nat (length buf) ->
  exists buf', store_high cp v buf = Some buf' /\ length buf' = length buf
               /\ Decoder.high_at buf' (Z.to_nat cp) = v.
Proof.
  intros H. unfold store_high.
  destruct (cp <? 0) eqn:E; [apply Z.ltb_lt in E; lia|].
  destruct (lookup_lt_is_Some_2 buf (Z.to_nat cp)) as [p Hp]; [lia|].
  rewrite Hp. eexists; split; [reflexivity|]. split.
  - apply length_insert.
  - unfold Decoder.high_at. rewrite list_lookup_insert_eq by lia. reflexivity.
Qed.

Lemma store_low_ok cp v (buf : buffer) :
  0 <= cp < Z.of_nat (length buf) ->
  exists buf', store_low cp v buf = Some buf' /\ length buf' = length buf
               /\ (exists h, buf' !! Z.to_nat cp = Some (h, v)).
Proof.
  intros H. unfold store_low.
  destruct (cp <? 0) eqn:E; [apply Z.ltb_lt in E; lia|].
  destruct (lookup_lt_is_Some_2 buf (Z.to_nat cp)) as [p Hp]; [lia|].
  rewrite Hp. eexists; split; [reflexivity|]. split.
  - apply length_insert.
  - exists p.1. rewrite list_lookup_insert_eq by lia. reflexivity.
Qed.

Lemma store_high_length cp v (buf buf' : buffer) :
  store_high cp v buf = Some buf' -> length buf' = length buf.
Proof.
  unfold store_high. destruct (cp <? 0); [discriminate|].
  destruct (buf !! Z.to_nat cp); [|discriminate].
  intros [= <-]. apply length_insert.
Qed.

Lemma store_low_length cp v (buf buf' : buffer) :
  store_low cp v buf = Some buf' -> length buf' = length buf.
Proof.
  unfold store_low. destruct (cp <? 0); [discriminate|].
  destruct (buf !! Z.to_nat cp); [|discriminate].
  intros [= <-]. apply length_insert.
Qed.

End CaptureFacts.

Section CaptureInvariant.
Import Capture.

Lemma sane_start (buf : buffer) : length buf = 100%nat -> sane (start buf).
Proof.
  intros H. unfold sane, start; cbn.
  repeat split; try lia; try discriminate; unfold MAXPULSE; lia.
Qed.

Lemma sane_step s b s' : sane s -> step s b = Polling s' -> sane s'.
Proof.
  intros (Hc & Hh & Hl & Hlen & Hz & Hlow & Hmax).
  unfold step. destruct (pc s) eqn:Hpc, b.
  - (* high loop body *)
    destruct (exit_test _ _) eqn:G; [discriminate|]. intros [= <-].
    apply exit_test_false_inv in G as [_ G].
    pose proof (wrap16_range (highpulse s + 1)).
    unfold sane; cbn. repeat split; try lia; auto; try discriminate.
    all: intros Hne; destruct (Hmax Hne); destruct G; try contradiction; assumption.
  - (* high loop left *)
    destruct (store_high _ _ _) as [buf|] eqn:S; [|discriminate]. intros [= <-].
    pose proof (store_high_length _ _ _ _ S) as L.
    unfold sane; cbn. repeat split; try lia; try discriminate; try (apply Hmax; assumption).
    intros _. unfold store_high in S.
    destruct (currentpulse s <? 0); [discriminate|].
    destruct (pulses s !! Z.to_nat (currentpulse s)) eqn:E; [|discriminate].
    apply lookup_lt_Some in E. unfold NUMPULSES. lia.
  - (* low loop left *)
    destruct (store_low _ _ _) as [buf|] eqn:S; [|discriminate]. intros [= <-].
    pose proof (store_low_length _ _ _ _ S) as L.
    pose proof (wrap16_range (currentpulse s + 1)).
    unfold sane; cbn. repeat split; try lia; try discriminate; unfold MAXPULSE; lia.
  - (* low loop body *)
    destruct (exit_test _ _) eqn:G; [discriminate|]. intros [= <-].
    apply exit_test_false_inv in G as [_ G].
    pose proof (wrap16_range (lowpulse s + 1)).
    unfold sane; cbn. repeat split; try lia; auto; try discriminate.
    all: intros Hne; destruct (Hmax Hne); destruct G; try contradiction; assumption.
Qed.

Lemma sane_listen levels : forall s s',
  sane s -> listen s levels = Polling s' -> sane s'.
Proof.
  induction levels as [|b levels IH]; intros s s' Hs.
  - cbn. intros [= <-]. exact Hs.
  - cbn. destruct (step s b) eqn:E; try discriminate.
    apply IH. eapply sane_step; eauto.
Qed.

(** Past the first pair, a line that stops moving makes the sampler
    return within [n > MAXPULSE] reads. *)
Lemma sane_held_returns s level n :
  sane s -> 1 <= currentpulse s <= NUMPULSES ->
  (currentpulse s = NUMPULSES -> level = true) ->
  MAXPULSE < Z.of_nat n ->
  exists c buf', listen s (held level n) = Returned c buf'
                 /\ currentpulse s <= c <= NUMPULSES.
Proof.
  intros (Hc & Hh & Hl & Hlen & Hz & Hlow & Hmax) Hcp Hfull Hn.
  destruct s as [p cp h l buf]; cbn in *.
  assert (Hne : cp <> 0) by lia. specialize (Hmax Hne) as [Hh' Hl'].
  destruct n as [|n]; [unfold MAXPULSE in Hn; lia|].
  unfold held. destruct p, level.
  - exists cp, buf. split; [|lia].
    apply high_timeout; unfold MAXPULSE in *; lia.
  - assert (cp < NUMPULSES).
    { destruct (Z.eq_dec cp NUMPULSES) as [E|E]; [specialize (Hfull E); discriminate|lia]. }
    destruct (store_high_ok cp h buf) as (buf' & S & L & _); [unfold NUMPULSES in *; lia|].
    exists cp, buf'. split; [|lia].
    cbn [replicate listen]. unfold step; cbn. rewrite S.
    apply low_timeout; unfold MAXPULSE in *; lia.
  - specialize (Hlow eq_refl).
    destruct (store_low_ok cp l buf) as (buf' & S & L & _); [unfold NUMPULSES in *; lia|].
    exists (cp + 1), buf'. split; [|lia].
    cbn [replicate listen]. unfold step; cbn. rewrite S.
    rewrite wrap16_small by (unfold NUMPULSES in *; lia).
    apply high_timeout; unfold MAXPULSE in *; lia.
  - exists cp, buf. split; [|lia].
    apply low_timeout; unfold MAXPULSE in *; lia.
Qed.

End CaptureInvariant.

(** ** Termination of a capture *)

(** C1 (counterexample): a line that idles high from the very start of a
    session keeps the sampler polling for ever: no number of reads makes
    it return. *)
Lemma listenForIR_idle_line_never_returns :
  ~ (exists n c buf', Capture.listenForIR blank (held true n) = Capture.Returned c buf').
Proof.
  intros (n & c & buf' & H).
  unfold Capture.listenForIR, Capture.start, held in H.
  pose proof (high_held n 0 0 0 blank) as P.
  change (wrap16 0) with 0 in P.
  rewrite P in H; [discriminate| |now left].
  unfold NUMPULSES; lia.
Qed.

(** C1 (amended): once a capture has recorded its first pair (pair index
    between 1 and 100), a line held at one level, high or low (high when
    the index is already 100), makes [listenForIR] return within
    MAXPULSE + 1 further reads, with a pair count of at most NUMPULSES. *)
Theorem listenForIR_returns_once_started
    (buf : buffer) (levels : list bool) (s : Capture.state) (level : bool) :
  length buf = 100%nat ->
  Capture.listenForIR buf levels = Capture.Polling s ->
  1 <= Capture.currentpulse s <= NUMPULSES ->
  (Capture.currentpulse s = NUMPULSES -> level = true) ->
  exists c buf',
    Capture.listenForIR buf (levels ++ held level (Z.to_nat (MAXPULSE + 1)))
    = Capture.Returned c buf'
    /\ Capture.currentpulse s <= c <= NUMPULSES.
Proof.
  intros Hlen Hrun Hcp Hfull.
  unfold Capture.listenForIR in *.
  rewrite listen_app, Hrun.
  apply sane_held_returns; auto.
  - eapply sane_listen; [apply sane_start, Hlen|exact Hrun].
  - unfold MAXPULSE. lia.
Qed.

Lemma listenForIR_returns_once_started_witness :
  exists c buf',
    Capture.listenForIR blank ([false; true] ++ held false (Z.to_nat (MAXPULSE + 1)))
    = Capture.Returned c buf'
    /\ 1 <= c <= NUMPULSES.
Proof.
  apply (listenForIR_returns_once_started blank [false; true]
           (Capture.fresh 1 blank) false).
  - reflexivity.
  - reflexivity.
  - cbn. unfold NUMPULSES. lia.
  - cbn. unfold NUMPULSES. intros H. lia.
Defined.

(** ** Bounds of the buffer *)

(** C2 (evaluation at the failing input): the exit test sits inside the
    two inner loops only.  When the read that follows the hundredth pair
    is low, the high loop is skipped with the pair index at 100 and the
    sampler stores into slot 100; so after a train ending in a one-read
    spike, and so on a line that flips between any two reads. *)
Theorem listenForIR_stores_past_buffer :
  Capture.listenForIR blank spike = Capture.OutOfBounds 100
  /\ Capture.listenForIR blank glitches = Capture.OutOfBounds 100
  /\ length blank = 100%nat.
Proof. repeat split; vm_compute; reflexivity. Qed.

(** ** The MAXPULSE cut-off and the first pulse *)

(** C9: a pulse whose count reaches MAXPULSE ends the session (and not
    before, while the buffer has room) unless the pair index is still 0;
    the first high pulse and the first low pulse are measured on, however
    long, and stored (as 16-bit counts) in slot 0 when the level finally
    changes. *)
Theorem maxpulse_ends_capture_unless_first
    (cp : Z) (buf : buffer) (n : nat) :
  length buf = 100%nat ->
  0 < cp < NUMPULSES ->
  MAXPULSE <= Z.of_nat n ->
  (* later pulses: cut off on the read that reaches MAXPULSE *)
  Capture.listen (Capture.fresh cp buf) (held true (Z.to_nat MAXPULSE))
    = Capture.Returned cp buf
  /\ Capture.listen (Capture.fresh cp buf) (held true (Z.to_nat (MAXPULSE - 1)))
    = Capture.Polling (Capture.mk Capture.InHigh cp (MAXPULSE - 1) 0 buf)
  /\ Capture.listen (Capture.mk Capture.InLow cp 0 0 buf) (held false (Z.to_nat MAXPULSE))
    = Capture.Returned cp buf
  (* first pulse: measured on and captured *)
  /\ (exists buf',
        Capture.listenForIR buf (held true n ++ [false])
        = Capture.Polling (Capture.mk Capture.InLow 0 (wrap16 (Z.of_nat n)) 0 buf')
        /\ Decoder.high_at buf' 0 = wrap16 (Z.of_nat n))
  /\ (exists buf' h,
        Capture.listen (Capture.mk Capture.InLow 0 0 0 buf) (held false n ++ [true])
        = Capture.Polling (Capture.fresh 1 buf')
        /\ buf' !! 0%nat = Some (h, wrap16 (Z.of_nat n))).
Proof.
  intros Hlen Hcp Hn. unfold held, Capture.fresh, Capture.listenForIR, Capture.start.
  repeat split.
  - apply high_timeout; unfold MAXPULSE in *; lia.
  - pose proof (high_held (Z.to_nat (MAXPULSE - 1)) cp 0 0 buf) as P.
    change (wrap16 0) with 0 in P. rewrite P.
    + rewrite wrap16_small by (unfold MAXPULSE; lia).
      reflexivity.
    + unfold NUMPULSES in *; lia.
    + right. unfold MAXPULSE; lia.
  - apply low_timeout; unfold MAXPULSE in *; lia.
  - destruct (store_high_ok 0 (wrap16 (Z.of_nat n)) buf) as (buf' & S & _ & R); [lia|].
    exists buf'. split; [|exact R].
    rewrite listen_app.
    pose proof (high_held n 0 0 0 buf) as P.
    change (wrap16 0) with 0 in P. rewrite P by (unfold NUMPULSES; lia || now left).
    rewrite Z.add_0_l.
    cbn [Capture.listen]. unfold Capture.step.
    cbn [Capture.pc Capture.currentpulse Capture.highpulse Capture.lowpulse Capture.pulses].
    rewrite S. reflexivity.
  - destruct (store_low_ok 0 (wrap16 (Z.of_nat n)) buf) as (buf' & S & _ & h & R); [lia|].
    exists buf', h. split; [|exact R].
    rewrite listen_app.
    pose proof (low_held n 0 0 0 buf) as P.
    change (wrap16 0) with 0 in P. rewrite P by (unfold NUMPULSES; lia || now left).
    rewrite Z.add_0_l.
    cbn [Capture.listen]. unfold Capture.step.
    cbn [Capture.pc Capture.currentpulse Capture.highpulse Capture.lowpulse Capture.pulses].
    rewrite S. reflexivity.
Qed.

Lemma maxpulse_ends_capture_unless_first_witness :
  Capture.listen (Capture.fresh 1 blank) (held true (Z.to_nat MAXPULSE))
    = Capture.Returned 1 blank
  /\ (exists buf',
        Capture.listenForIR blank (held true 5000 ++ [false])
        = Capture.Polling (Capture.mk Capture.InLow 0 (wrap16 (Z.of_nat 5000)) 0 buf')
        /\ Decoder.high_at buf' 0 = wrap16 (Z.of_nat 5000)).
Proof.
  destruct (maxpulse_ends_capture_unless_first 1 blank 5000%nat)
    as (A & _ & _ & B & _).
  - reflexivity.
  - unfold NUMPULSES. lia.
  - unfold MAXPULSE. lia.
  - split; [exact A|exact B].
Defined.

(** ** The decoder *)

Section DecoderFacts.
Import Decoder.

Lemma bit_of_cases t : bit_of t = 0 \/ bit_of t = 1.
Proof. unfold bit_of. destruct (_ && _); auto. Qed.

(** As long as the product fits 16 bits the rule is the plain one. *)
Lemma bit_of_exact t :
  0 <= t * RESOLUTION < 65536 ->
  (bit_of t = 0 <-> 0 < t * RESOLUTION < 500).
Proof.
  intros H. unfold bit_of, duration. rewrite wrap16_small by exact H.
  destruct (0 <? t * RESOLUTION) eqn:A; destruct (t * RESOLUTION <? 500) eqn:B; cbn;
    rewrite ?Z.ltb_lt, ?Z.ltb_ge in *; split; intros; try lia; discriminate.
Qed.

Lemma lor_even_bit k b :
  0 <= k -> b = 0 \/ b = 1 -> Z.lor (2 * k) b = 2 * k + b.
Proof.
  intros Hk [->| ->].
  - rewrite Z.lor_0_r. lia.
  - destruct k; [reflexivity|reflexivity|lia].
Qed.

Lemma shift_in_sum buf acc i :
  shift_in buf acc i = wrap32 (2 * acc) + bit_of (high_at buf i).
Proof.
  unfold shift_in. rewrite Z.shiftl_mul_pow2 by lia.
  replace (acc * 2 ^ 1) with (2 * acc) by lia.
  unfold wrap32. change (2 ^ 32) with (2 * 2 ^ 31).
  rewrite Z.mul_mod_distr_l by lia.
  apply lor_even_bit; [|apply bit_of_cases].
  apply Z.mod_pos_bound. lia.
Qed.

Lemma shift_in_range buf acc i : 0 <= shift_in buf acc i < 4294967296.
Proof.
  rewrite shift_in_sum. unfold wrap32. change (2 ^ 32) with (2 * 2 ^ 31).
  rewrite Z.mul_mod_distr_l by lia.
  pose proof (Z.mod_pos_bound acc (2 ^ 31) ltac:(lia)).
  destruct (bit_of_cases (high_at buf i)) as [-> | ->]; lia.
Qed.

Lemma wrap32_shift_in buf acc i :
  wrap32 (shift_in buf acc i) = wrap32 (2 * acc + bit_of (high_at buf i)).
Proof.
  rewrite shift_in_sum. unfold wrap32. apply Z.add_mod_idemp_l. lia.
Qed.

(** Shifting in the same bit [b] for every index of [idx]. *)
Lemma fold_shift_in_uniform buf b idx : forall acc,
  (forall i, i ∈ idx -> bit_of (high_at buf i) = b) ->
  wrap32 (fold_left (shift_in buf) idx acc)
  = wrap32 (acc * 2 ^ Z.of_nat (length idx) + (2 ^ Z.of_nat (length idx) - 1) * b).
Proof.
  induction idx as [|i idx IH]; intros acc Hb.
  - cbn. f_equal. lia.
  - cbn [fold_left length]. rewrite IH by (intros j Hj; apply Hb; now right).
    rewrite Nat2Z.inj_succ, Z.pow_succ_r by lia.
    set (p := 2 ^ Z.of_nat (length idx)).
    unfold wrap32.
    rewrite <- Z.add_mod_idemp_l, <- Z.mul_mod_idemp_l by lia.
    fold (wrap32 (shift_in buf acc i)). rewrite wrap32_shift_in.
    rewrite (Hb i) by now left. unfold wrap32.
    rewrite Z.mul_mod_idemp_l, Z.add_mod_idemp_l by lia.
    f_equal. lia.
Qed.

Lemma decode_range buf acc : 0 <= decode buf acc < 4294967296.
Proof.
  unfold decode. change (seq 0 32) with (seq 0 31 ++ [31%nat]).
  rewrite fold_left_app. cbn [fold_left]. apply shift_in_range.
Qed.

(** Thirty-two equal bits: the accumulator the loop starts from is
    shifted out entirely. *)
Lemma decode_uniform buf b acc :
  b = 0 \/ b = 1 ->
  (forall i, (i < 32)%nat -> bit_of (high_at buf i) = b) ->
  decode buf acc = (2 ^ 32 - 1) * b.
Proof.
  intros Hb H.
  rewrite <- (wrap32_small (decode buf acc)) by apply decode_range.
  unfold decode. rewrite (fold_shift_in_uniform buf b).
  - rewrite length_seq. unfold wrap32.
    rewrite Z.add_comm, Z.mod_add by lia.
    apply Z.mod_small. destruct Hb as [-> | ->]; lia.
  - intros i Hi. apply H. apply elem_of_seq in Hi. lia.
Qed.

End DecoderFacts.

(** C4: thirty-two high counts of 50 ticks (100 us) decode to 0x00000000
    and thirty-two of 300 ticks (600 us) to 0xFFFFFFFF, whatever the
    accumulator holds when the decode loop is entered. *)
Theorem decode_uniform_samples (buf : buffer) (acc t : Z) :
  (forall i, (i < 32)%nat -> Decoder.high_at buf i = t) ->
  (t * RESOLUTION = 100 -> Decoder.decode buf acc = 0x00000000)
  /\ (t * RESOLUTION = 600 -> Decoder.decode buf acc = 0xFFFFFFFF).
Proof.
  intros H. split; intros Ht.
  - rewrite (decode_uniform buf 0); [reflexivity|now left|].
    intros i Hi. rewrite H by exact Hi.
    replace t with 50 by (unfold RESOLUTION in Ht; lia). reflexivity.
  - rewrite (decode_uniform buf 1); [reflexivity|now right|].
    intros i Hi. rewrite H by exact Hi.
    replace t with 300 by (unfold RESOLUTION in Ht; lia). reflexivity.
Qed.

Lemma decode_uniform_samples_witness :
  Decoder.decode (replicate 100 (50, 0)) 77 = 0x00000000
  /\ Decoder.decode (replicate 100 (300, 0)) 77 = 0xFFFFFFFF.
Proof.
  split.
  - apply (decode_uniform_samples (replicate 100 (50, 0)) 77 50); [|reflexivity].
    intros i Hi. unfold Decoder.high_at.
    rewrite lookup_replicate_2 by lia. reflexivity.
  - apply (decode_uniform_samples (replicate 100 (300, 0)) 77 300); [|reflexivity].
    intros i Hi. unfold Decoder.high_at.
    rewrite lookup_replicate_2 by lia. reflexivity.
Defined.

(** C3 (evaluation at the failing input): a first high pulse of 32769
    ticks is a recorded count (the first pulse is not cut at MAXPULSE);
    its 16-bit product with RESOLUTION is 2, so the decoder emits bit 0
    although 65538 us is not below 500 us; with every other count at 300
    ticks the code comes out as 0x7FFFFFFF. *)
Theorem bit_of_wraps_at_32769 :
  (exists s, Capture.listenForIR blank (held true (Z.to_nat 32769) ++ [false]) = Capture.Polling s
             /\ Decoder.high_at (Capture.pulses s) 0 = 32769)
  /\ Decoder.duration 32769 = 2
  /\ Decoder.bit_of 32769 = 0
  /\ 500 <= 32769 * RESOLUTION
  /\ Decoder.decode (<[0%nat := (32769, 300)]> (replicate 100 (300, 300))) 33 = 0x7FFFFFFF.
Proof.
  split; [|repeat split; vm_compute; congruence].
  eexists. split; vm_compute; reflexivity.
Qed.

(** ** The trigger counter *)

Section TriggerFacts.
Import Trigger.

(** A pass of [loop] is a capture, a decode entered with the pair count,
    and the tail of the loop on the decoded code. *)
Lemma loop_is_cycle levels clock d r :
  loop levels clock d = Some r ->
  exists n buf,
    Capture.listenForIR (pulses d) levels = Capture.Returned n buf
    /\ r = cycle (with_pulses buf d) (Decoder.decode buf n, clock).
Proof.
  unfold loop. destruct (Capture.listenForIR _ _) as [|n buf|]; try discriminate.
  intros [= <-]. exists n, buf. split; [reflexivity|].
  unfold cycle. cbn [fst snd]. reflexivity.
Qed.

Lemma cycle_miss d code clock :
  code <> targetCode ->
  cycle d (code, clock) = (decay (with_irCode code d), false).
Proof.
  intros H. unfold cycle, judge, on_match; cbn.
  apply Z.eqb_neq in H. rewrite H. reflexivity.
Qed.

Lemma cycle_hit d clock :
  cycle d (targetCode, clock)
  = (decay (with_trigger (wrap8 (trigger d + 2))
              (with_triggerTimer (millis clock) (with_irCode targetCode d))),
     sensitivity <=? wrap8 (trigger d + 2)).
Proof. reflexivity. Qed.

(** The counter and the beep of a cycle depend on the device through
    its counter only, and not on the clock. *)
Lemma cycle_only_trigger d d' code clock clock' :
  trigger d = trigger d' ->
  trigger (cycle d (code, clock)).1 = trigger (cycle d' (code, clock')).1
  /\ (cycle d (code, clock)).2 = (cycle d' (code, clock')).2.
Proof.
  intros H. unfold cycle, judge, on_match, decay; cbn.
  destruct (code =? targetCode); cbn; rewrite H;
    repeat match goal with |- context [if ?c then _ else _] => destruct c end;
    cbn; auto.
Qed.

Lemma cycles_only_trigger l : forall l' d d',
  trigger d = trigger d' -> l.*1 = l'.*1 ->
  trigger (cycles d l) = trigger (cycles d' l') /\ beeps d l = beeps d' l'.
Proof.
  unfold cycles.
  induction l as [|[c k] l IH]; intros [|[c' k'] l'] d d' Ht Hl; try discriminate.
  - split; [exact Ht|reflexivity].
  - cbn in Hl. injection Hl as -> Hl.
    destruct (cycle_only_trigger d d' c' k k' Ht) as [A B].
    destruct (IH l' _ _ A Hl) as [C D].
    cbn [fold_left beeps]. split; [exact C|]. rewrite B, D. reflexivity.
Qed.

End TriggerFacts.

(** C5: a loop cycle calls [beep] exactly when the decoded code is the
    target code and the counter, after its increment by 2 (modulo 256) and
    before the decrement of that cycle, is at least [sensitivity]; from a
    counter of 4 a single matching cycle beeps, at the value 6. *)
Theorem beep_iff_match_and_threshold (d : device) (code clock : Z) :
  ((Trigger.cycle d (code, clock)).2 = true
   <-> code = targetCode
       /\ sensitivity <= trigger (Trigger.on_match clock (Trigger.with_irCode code d)).1)
  /\ trigger (Trigger.on_match clock (Trigger.with_irCode targetCode d)).1
     = wrap8 (trigger d + 2)
  /\ (Trigger.cycle (Trigger.with_trigger 4 d) (targetCode, clock)).2 = true
  /\ trigger (Trigger.on_match clock
                (Trigger.with_irCode targetCode (Trigger.with_trigger 4 d))).1 = 6.
Proof.
  repeat split; try reflexivity.
  - unfold Trigger.cycle, Trigger.judge, Trigger.on_match in H; cbn in H.
    destruct (code =? targetCode) eqn:E; [|discriminate].
    apply Z.eqb_eq. exact E.
  - unfold Trigger.cycle, Trigger.judge, Trigger.on_match in *; cbn in *.
    destruct (code =? targetCode) eqn:E; [|discriminate].
    cbn in *. apply Z.leb_le. exact H.
  - intros [-> H]. rewrite cycle_hit. cbn [snd].
    apply Z.leb_le. exact H.
Qed.

(** C6: from any counter value v in 0..255, N consecutive cycles whose
    code is not the target leave the counter at max(0, v - N). *)
Theorem trigger_decays_to_zero (d : device) (l : list (Z * Z)) :
  0 <= trigger d < 256 ->
  Forall (fun cc => cc.1 <> targetCode) l ->
  trigger (Trigger.cycles d l) = Z.max 0 (trigger d - Z.of_nat (length l)).
Proof.
  intros Hd Hl. revert d Hd.
  induction Hl as [|[code clock] l Hc Hl IH]; intros d Hd.
  - cbn. lia.
  - unfold Trigger.cycles in *. cbn [fold_left length].
    cbn [fst] in Hc. rewrite (cycle_miss d code clock Hc). cbn [fst].
    assert (S : trigger (Trigger.decay (Trigger.with_irCode code d))
                = Z.max 0 (trigger d - 1) /\
                0 <= trigger (Trigger.decay (Trigger.with_irCode code d)) < 256).
    { unfold Trigger.decay; cbn.
      destruct (1 <=? trigger d) eqn:E; cbn.
      - apply Z.leb_le in E. rewrite wrap8_small by lia. lia.
      - apply Z.leb_gt in E. lia. }
    destruct S as [S R]. rewrite IH by exact R. rewrite S. lia.
Qed.

Lemma trigger_decays_to_zero_witness :
  trigger (Trigger.cycles (Trigger.with_trigger 3 (power_on 0 1))
             [(0, 10); (5, 20); (7, 30); (0x7FFFFFFF, 40); (1, 50)])
  = Z.max 0 (3 - Z.of_nat 5).
Proof.
  apply (trigger_decays_to_zero (Trigger.with_trigger 3 (power_on 0 1))
           [(0, 10); (5, 20); (7, 30); (0x7FFFFFFF, 40); (1, 50)]).
  - cbn. lia.
  - repeat constructor; cbn; discriminate.
Defined.

(** C10: the counter is kept modulo 256 and does not saturate.  Under
    uninterrupted matches it gains one per cycle; the 254th match lifts it
    to 255 (254 after the decrement), the 255th wraps 254 + 2 to 0, and
    [beep], called on matches 5 to 254, is not called on matches 255 to
    259 although the code still matches. *)
Theorem trigger_wraps_under_continuous_match (d : device) (clocks : list Z) :
  trigger d = 0 ->
  length clocks = 260%nat ->
  let l := map (pair targetCode) clocks in
  Trigger.beeps d l
  = replicate 4 false ++ replicate 250 true ++ replicate 5 false ++ [true]
  /\ trigger (Trigger.cycles d (take 253 l)) = 253
  /\ wrap8 (253 + 2) = 255
  /\ trigger (Trigger.cycles d (take 254 l)) = 254
  /\ wrap8 (254 + 2) = 0
  /\ trigger (Trigger.cycles d (take 255 l)) = 0.
Proof.
  intros Ht Hlen l.
  set (d0 := power_on 0 1).
  set (l0 := replicate 260 (targetCode, 0)).
  assert (Hl : l.*1 = l0.*1).
  { unfold l, l0. rewrite <- list_fmap_compose.
    rewrite (fmap_replicate fst 260 (targetCode, 0)). cbn [fst].
    rewrite <- Hlen. clear. induction clocks; cbn; congruence. }
  assert (Htk : forall n, (take n l).*1 = (take n l0).*1).
  { intros n. rewrite !fmap_take, Hl. reflexivity. }
  assert (H0 : trigger d = trigger d0) by (rewrite Ht; reflexivity).
  destruct (cycles_only_trigger l l0 d d0 H0 Hl) as [_ B].
  destruct (cycles_only_trigger _ _ d d0 H0 (Htk 253%nat)) as [C3 _].
  destruct (cycles_only_trigger _ _ d d0 H0 (Htk 254%nat)) as [C4 _].
  destruct (cycles_only_trigger _ _ d d0 H0 (Htk 255%nat)) as [C5 _].
  rewrite B, C3, C4, C5.
  repeat split; vm_compute; reflexivity.
Qed.

Lemma trigger_wraps_under_continuous_match_witness :
  Trigger.beeps (power_on 7 1) (map (pair targetCode) (replicate 260 9))
  = replicate 4 false ++ replicate 250 true ++ replicate 5 false ++ [true].
Proof.
  apply (trigger_wraps_under_continuous_match (power_on 7 1) (replicate 260 9)).
  - reflexivity.
  - apply length_replicate.
Defined.

(** ** Power management *)

Section PowerFacts.
Import Power.

(** The handler's idle time is the real elapsed time since the stamp,
    as long as that is below 2^32 ms. *)
Lemma idle_elapsed d stamp elapsed :
  triggerTimer d = millis stamp ->
  0 <= elapsed < 4294967296 ->
  idle (stamp + elapsed) d = elapsed.
Proof.
  intros Hs He. unfold idle. rewrite Hs. unfold millis, wrap32.
  rewrite <- Zminus_mod. replace (stamp + elapsed - stamp) with elapsed by lia.
  apply Z.mod_small. lia.
Qed.

(** A pass of [loop] never sleeps: [naptime] has one call site. *)
Lemma react_cycle_awake d levels clock : (react d (Cycle levels clock)).2 = Awake.
Proof.
  unfold react. destruct (loop levels clock d) as [[d' b]|]; reflexivity.
Qed.

Lemma ISR_cases clock woke d :
  (sleepTimeout <= idle clock d
   /\ ISR_TIMER1_COMPA clock woke d
      = (Trigger.with_triggerTimer (millis woke) (naptime d), Napped (idle clock d)))
  \/ (idle clock d < sleepTimeout /\ ISR_TIMER1_COMPA clock woke d = (d, Awake)).
Proof.
  unfold ISR_TIMER1_COMPA.
  destruct (sleepTimeout <=? idle clock d) eqn:E.
  - left. apply Z.leb_le in E. auto.
  - right. apply Z.leb_gt in E. auto.
Qed.

(** Over a whole execution: every nap was taken at an idle time of at
    least [sleepTimeout]. *)
Lemma execute_naps es : forall d,
  Forall (fun v => match v with
                   | Awake => True
                   | Napped t => sleepTimeout <= t
                   end) (execute d es).2.
Proof.
  induction es as [|e es IH]; intros d; cbn [execute].
  - constructor.
  - destruct (react d e) as [d1 v] eqn:R.
    specialize (IH d1). destruct (execute d1 es) as [d2 vs]. cbn [snd] in *.
    constructor; [|exact IH].
    destruct v as [|t]; [exact I|].
    destruct e as [levels clock|clock woke].
    + pose proof (react_cycle_awake d levels clock) as A.
      rewrite R in A. discriminate.
    + cbn [react] in R.
      destruct (ISR_cases clock woke d) as [[H E]|[H E]]; rewrite E in R;
        [injection R as _ <-; exact H|discriminate].
Qed.

End PowerFacts.

(** C7: in any execution, an event sends the device to sleep only if it
    is the timer handler and the idle time it observes,
    millis() - triggerTimer, is at least sleepTimeout (4000 ms); a handler
    observing less leaves the device as it is, for instance 3999 ms after
    the stamp. *)
Theorem naptime_only_after_sleepTimeout
    (d0 : device) (past : list Power.event) (e : Power.event)
    (d' : device) (v : Power.verdict) :
  let d := (Power.execute d0 past).1 in
  Power.react d e = (d', v) ->
  match v with
  | Power.Napped t =>
      exists clock woke,
        e = Power.Tick clock woke /\ t = idle clock d /\ sleepTimeout <= idle clock d
  | Power.Awake =>
      forall clock woke,
        e = Power.Tick clock woke -> idle clock d < sleepTimeout /\ d' = d
  end
  /\ (forall stamp woke,
        triggerTimer d = millis stamp ->
        Power.react d (Power.Tick (stamp + 3999) woke) = (d, Power.Awake)).
Proof.
  intros d R. split.
  - destruct e as [levels clock|clock woke].
    + pose proof (react_cycle_awake d levels clock) as A.
      rewrite R in A. cbn in A. subst v. intros ? ? [=].
    + cbn [Power.react] in R.
      destruct (ISR_cases clock woke d) as [[H E]|[H E]]; rewrite E in R;
        injection R as <- <-.
      * exists clock, woke. auto.
      * intros ? ? [= <- <-]. auto.
  - intros stamp woke Hs. cbn [Power.react].
    destruct (ISR_cases (stamp + 3999) woke d) as [[H E]|[H E]]; [|exact E].
    rewrite (idle_elapsed d stamp 3999 Hs) in H by lia.
    unfold sleepTimeout in H. lia.
Qed.

Lemma naptime_only_after_sleepTimeout_witness :
  exists clock woke,
    Power.Tick 4500 9000 = Power.Tick clock woke
    /\ 4400 = idle clock (Power.execute (power_on 100 1) [Power.Tick 3000 0]).1
    /\ sleepTimeout <= idle clock (Power.execute (power_on 100 1) [Power.Tick 3000 0]).1.
Proof.
  refine (proj1 (naptime_only_after_sleepTimeout (power_on 100 1)
                   [Power.Tick 3000 0] (Power.Tick 4500 9000)
                   _ (Power.Napped 4400) _)).
  vm_compute. reflexivity.
Defined.

(** C8: whenever the handler has put the device to sleep, the device
    that resumes has triggerTimer set to millis() of the wake-up, so the
    idle time measured at that instant is 0 (and the pin-change interrupt
    is off, the timers and the USI are powered again). *)
Theorem wake_resets_triggerTimer
    (d0 : device) (past : list Power.event) (e : Power.event)
    (d' : device) (t : Z) :
  Power.react (Power.execute d0 past).1 e = (d', Power.Napped t) ->
  exists clock woke,
    e = Power.Tick clock woke
    /\ triggerTimer d' = millis woke
    /\ idle woke d' = 0
    /\ pcint d' = false /\ timers_on d' = true /\ usi_on d' = true.
Proof.
  set (d := (Power.execute d0 past).1). intros R.
  destruct e as [levels clock|clock woke].
  - pose proof (react_cycle_awake d levels clock) as A.
    rewrite R in A. discriminate.
  - cbn [Power.react] in R.
    destruct (ISR_cases clock woke d) as [[H E]|[H E]]; rewrite E in R;
      [|discriminate].
    injection R as <- _. exists clock, woke. repeat split.
    unfold idle; cbn [triggerTimer Trigger.with_triggerTimer].
    rewrite Z.sub_diag. reflexivity.
Qed.

Lemma wake_resets_triggerTimer_witness :
  exists clock woke,
    Power.Tick 4500 9000 = Power.Tick clock woke
    /\ triggerTimer (Power.ISR_TIMER1_COMPA 4500 9000 (power_on 100 1)).1 = millis woke
    /\ idle woke (Power.ISR_TIMER1_COMPA 4500 9000 (power_on 100 1)).1 = 0
    /\ pcint (Power.ISR_TIMER1_COMPA 4500 9000 (power_on 100 1)).1 = false
    /\ timers_on (Power.ISR_TIMER1_COMPA 4500 9000 (power_on 100 1)).1 = true
    /\ usi_on (Power.ISR_TIMER1_COMPA 4500 9000 (power_on 100 1)).1 = true.
Proof.
  apply (wake_resets_triggerTimer (power_on 100 1) [] (Power.Tick 4500 9000)
           (Power.ISR_TIMER1_COMPA 4500 9000 (power_on 100 1)).1 4400).
  vm_compute. reflexivity.
Defined.

(** * Further properties *)

(** ** The sampler on a clean pulse train *)

Section TrainFacts.
Import Capture.

Lemma store_high_middle (pre post : list (Z * Z)) o v :
  store_high (Z.of_nat (length pre)) v (pre ++ o :: post)
  = Some (pre ++ (v, o.2) :: post).
Proof.
  unfold store_high.
  destruct (Z.of_nat (length pre) <? 0) eqn:E; [apply Z.ltb_lt in E; lia|].
  rewrite Nat2Z.id, list_lookup_middle by reflexivity.
  rewrite <- (Nat.add_0_r (length pre)) at 1. rewrite insert_app_r. reflexivity.
Qed.

Lemma store_low_middle (pre post : list (Z * Z)) o v :
  store_low (Z.of_nat (length pre)) v (pre ++ o :: post)
  = Some (pre ++ (o.1, v) :: post).
Proof.
  unfold store_low.
  destruct (Z.of_nat (length pre) <? 0) eqn:E; [apply Z.ltb_lt in E; lia|].
  rewrite Nat2Z.id, list_lookup_middle by reflexivity.
  rewrite <- (Nat.add_0_r (length pre)) at 1. rewrite insert_app_r. reflexivity.
Qed.

Lemma recordable_counts cp p :
  recordable cp p ->
  0 <= p.1 < 65536 /\ 0 <= p.2 < 65536
  /\ (cp = 0 \/ (p.1 < MAXPULSE /\ p.2 < MAXPULSE)).
Proof.
  unfold recordable. destruct (cp =? 0) eqn:E; unfold MAXPULSE.
  - apply Z.eqb_eq in E. lia.
  - lia.
Qed.

(** The reads of one recordable pair fill the current slot and open the
    next round. *)
Lemma record_pair (pre post : list (Z * Z)) o p rest :
  Z.of_nat (length pre) < NUMPULSES ->
  recordable (Z.of_nat (length pre)) p ->
  listen (fresh (Z.of_nat (length pre)) (pre ++ o :: post)) (pair_reads p ++ rest)
  = listen (fresh (Z.of_nat (length pre) + 1) (pre ++ p :: post)) rest.
Proof.
  intros Hcp Hp. destruct p as [h l].
  apply recordable_counts in Hp as (Hh & Hl & Hm). cbn [fst snd] in *.
  set (cp := Z.of_nat (length pre)) in *.
  unfold pair_reads, fresh, held. cbn [fst snd].
  rewrite <- !app_assoc. rewrite listen_app.
  pose proof (high_held (Z.to_nat h) cp 0 0 (pre ++ o :: post)) as P.
  change (wrap16 0) with 0 in P. rewrite P; clear P.
  2: unfold NUMPULSES in *; lia.
  2: destruct Hm as [Hm|Hm]; [now left|right; lia].
  rewrite Z.add_0_l, Z2Nat.id, wrap16_small by lia.
  cbn [app listen]. unfold step at 1.
  cbn [pc currentpulse highpulse lowpulse pulses].
  unfold cp at 1. rewrite store_high_middle. fold cp.
  rewrite listen_app.
  pose proof (low_held (Z.to_nat l) cp h 0 (pre ++ (h, o.2) :: post)) as P.
  change (wrap16 0) with 0 in P. rewrite P; clear P.
  2: unfold NUMPULSES in *; lia.
  2: destruct Hm as [Hm|Hm]; [now left|right; lia].
  rewrite Z.add_0_l, Z2Nat.id, wrap16_small by lia.
  cbn [listen]. unfold step at 1.
  cbn [pc currentpulse highpulse lowpulse pulses].
  unfold cp at 1. rewrite store_low_middle. fold cp. cbn [fst].
  rewrite wrap16_small by (unfold NUMPULSES in *; lia).
  reflexivity.
Qed.

Lemma record_train ps : forall (pre olds post : list (Z * Z)) rest,
  length olds = length ps ->
  Z.of_nat (length pre + length ps) <= NUMPULSES ->
  (1 <= length pre)%nat ->
  Forall (recordable 1) ps ->
  listen (fresh (Z.of_nat (length pre)) (pre ++ olds ++ post)) (train ps ++ rest)
  = listen (fresh (Z.of_nat (length pre + length ps)) (pre ++ ps ++ post)) rest.
Proof.
  induction ps as [|p ps IH]; intros pre olds post rest Hlen Hfit Hpre Hall.
  - destruct olds; [|discriminate]. cbn. rewrite Nat.add_0_r. reflexivity.
  - destruct olds as [|o olds]; [discriminate|].
    apply Forall_cons in Hall as [Hp Hall].
    cbn [length] in *.
    unfold train. cbn [map concat]. rewrite <- app_assoc. cbn [app].
    rewrite record_pair.
    + fold (train ps).
      replace (Z.of_nat (length pre) + 1) with (Z.of_nat (length (pre ++ [p])))
        by (rewrite length_app; cbn; lia).
      replace (pre ++ p :: olds ++ post) with ((pre ++ [p]) ++ olds ++ post)
        by (rewrite <- app_assoc; reflexivity).
      rewrite IH.
      * rewrite length_app. cbn [length].
        rewrite <- app_assoc. cbn [app]. do 3 f_equal. lia.
      * lia.
      * rewrite length_app. cbn [length]. lia.
      * rewrite length_app. cbn [length]. lia.
      * exact Hall.
    + unfold NUMPULSES in *. lia.
    + unfold recordable in *. destruct (Z.of_nat (length pre) =? 0) eqn:E.
      * apply Z.eqb_eq in E. lia.
      * exact Hp.
Qed.

End TrainFacts.

(** X1: the sampler gives back a clean pulse train.  For up to a hundred
    pairs, the first with 16-bit counts and the others with counts below
    MAXPULSE, the reads of [train] followed by a line held high make
    [listenForIR] return the number of pairs with exactly these pairs in
    the first slots and the rest of the buffer as it was. *)
Theorem listenForIR_records_train (buf : list (Z * Z)) (p0 : Z * Z) (ps : list (Z * Z)) :
  length buf = 100%nat ->
  (length (p0 :: ps) <= 100)%nat ->
  recordable 0 p0 ->
  Forall (recordable 1) ps ->
  Capture.listenForIR buf (train (p0 :: ps) ++ held true (Z.to_nat MAXPULSE))
  = Capture.Returned (Z.of_nat (length (p0 :: ps)))
                     ((p0 :: ps) ++ drop (length (p0 :: ps)) buf).
Proof.
  intros Hbuf Hlen H0 Hall. cbn [length] in *.
  destruct buf as [|o buf]; [discriminate|]. cbn [length drop] in *.
  unfold Capture.listenForIR, Capture.start.
  unfold train. cbn [map concat]. rewrite <- app_assoc.
  pose proof (record_pair [] buf o p0) as P. cbn [length app] in P.
  change (Z.of_nat 0) with 0 in P. unfold Capture.fresh in P at 1.
  rewrite P; [|unfold NUMPULSES; lia|exact H0]. clear P.
  fold (train ps).
  rewrite <- (take_drop (length ps) buf) at 1.
  pose proof (record_train ps [p0] (take (length ps) buf) (drop (length ps) buf)) as Q.
  cbn [length app] in Q. change (0 + 1) with (Z.of_nat 1).
  rewrite Q; clear Q.
  - unfold Capture.fresh, held. rewrite high_timeout.
    + reflexivity.
    + lia.
    + unfold MAXPULSE. lia.
    + unfold MAXPULSE. lia.
  - rewrite length_take. lia.
  - unfold NUMPULSES. lia.
  - lia.
  - exact Hall.
Qed.

Lemma listenForIR_records_train_witness :
  Capture.listenForIR blank
    (train [(7000, 3); (300, 300); (10, 20)] ++ held true (Z.to_nat MAXPULSE))
  = Capture.Returned (Z.of_nat (length [(7000, 3); (300, 300); (10, 20)]))
      ([(7000, 3); (300, 300); (10, 20)]
       ++ drop (length [(7000, 3); (300, 300); (10, 20)]) blank).
Proof.
  apply (listenForIR_records_train blank (7000, 3) [(300, 300); (10, 20)]).
  - reflexivity.
  - cbn. lia.
  - unfold recordable. cbn. lia.
  - repeat constructor; unfold recordable, MAXPULSE; cbn; lia.
Defined.

(** ** What a returning capture leaves in the buffer *)

Section KeptFacts.
Import Capture.

Lemma exit_test_true_inv p cp : exit_test p cp = true -> cp <> 0.
Proof.
  unfold exit_test. intros H.
  apply orb_true_iff in H as [H|H].
  - apply andb_true_iff in H as [_ H]. apply negb_true_iff, Z.eqb_neq in H. exact H.
  - apply Z.eqb_eq in H. unfold NUMPULSES in H. lia.
Qed.

Lemma kept_start (buf : list (Z * Z)) : length buf = 100%nat -> kept buf (start buf).
Proof.
  intros H. unfold kept. split; [apply sane_start, H|].
  cbn. unfold NUMPULSES. repeat split; try lia; try reflexivity; try discriminate.
Qed.

Lemma kept_step buf0 s b s' : kept buf0 s -> step s b = Polling s' -> kept buf0 s'.
Proof.
  intros (Hs & Hcp & Hdone & Hrest & Hlow & Hhi & Hcur) Hstep.
  pose proof (sane_step s b s' Hs Hstep) as Hs'.
  unfold kept. split; [exact Hs'|].
  destruct Hs as (Hc & Hh & Hl & Hlen & Hz & Hinlow & Hmax).
  unfold step in Hstep. destruct (pc s) eqn:Hpc, b.
  - (* high loop body: the buffer and the index stay *)
    destruct (exit_test _ _); [discriminate|]. injection Hstep as <-.
    cbn [pc currentpulse highpulse lowpulse pulses].
    refine (conj Hcp (conj Hdone (conj Hrest (conj Hlow (conj _ _))))).
    + intros _. apply Hhi. reflexivity.
    + discriminate.
  - (* high loop left: the high count of the current slot is written *)
    unfold store_high in Hstep.
    destruct (currentpulse s <? 0) eqn:E; [discriminate|].
    destruct (pulses s !! Z.to_nat (currentpulse s)) as [p|] eqn:L; [|discriminate].
    injection Hstep as <-.
    cbn [pc currentpulse highpulse lowpulse pulses].
    pose proof (lookup_lt_Some _ _ _ L) as Lt.
    refine (conj Hcp (conj _ (conj _ (conj _ (conj _ _))))).
    + intros i q Hi Hlt Hq. rewrite list_lookup_insert_ne in Hq by lia.
      apply (Hdone i q Hi Hlt Hq).
    + intros i Hi. rewrite list_lookup_insert_ne by lia. apply Hrest, Hi.
    + rewrite list_lookup_insert_eq by exact Lt.
      rewrite <- Hlow. reflexivity.
    + discriminate.
    + intros _. rewrite list_lookup_insert_eq by exact Lt. reflexivity.
  - (* low loop left: the low count is written, the index moves on *)
    unfold store_low in Hstep.
    destruct (currentpulse s <? 0) eqn:E; [discriminate|].
    destruct (pulses s !! Z.to_nat (currentpulse s)) as [p|] eqn:L; [|discriminate].
    injection Hstep as <-.
    cbn [pc currentpulse highpulse lowpulse pulses].
    pose proof (lookup_lt_Some _ _ _ L) as Lt.
    specialize (Hinlow eq_refl). specialize (Hcur eq_refl).
    cbn in Hcur. injection Hcur as Hcur.
    assert (W : wrap16 (currentpulse s + 1) = currentpulse s + 1)
      by (apply wrap16_small; unfold NUMPULSES in *; lia).
    rewrite W.
    assert (Hother : forall i : nat, currentpulse s < Z.of_nat i ->
              <[Z.to_nat (currentpulse s) := (p.1, lowpulse s)]> (pulses s) !! i = buf0 !! i).
    { intros i Hi. rewrite list_lookup_insert_ne by lia. apply Hrest, Hi. }
    refine (conj _ (conj _ (conj _ (conj _ (conj _ _))))).
    + lia.
    + intros i q Hi Hlt Hq.
      destruct (Z.eq_dec (Z.of_nat i) (currentpulse s)) as [Heq|Hne].
      * replace i with (Z.to_nat (currentpulse s)) in Hq by lia.
        rewrite list_lookup_insert_eq in Hq by exact Lt. injection Hq as <-.
        cbn [fst snd]. destruct Hmax as [? ?]; lia.
      * rewrite list_lookup_insert_ne in Hq by lia.
        apply (Hdone i q); [exact Hi|lia|exact Hq].
    + intros i Hi. apply Hother. lia.
    + rewrite Hother by lia. reflexivity.
    + intros _. apply Hother. lia.
    + discriminate.
  - (* low loop body *)
    destruct (exit_test _ _); [discriminate|]. injection Hstep as <-.
    cbn [pc currentpulse highpulse lowpulse pulses].
    refine (conj Hcp (conj Hdone (conj Hrest (conj Hlow (conj _ _))))).
    + discriminate.
    + intros _. apply Hcur. reflexivity.
Qed.

Lemma kept_listen buf0 levels : forall s s',
  kept buf0 s -> listen s levels = Polling s' -> kept buf0 s'.
Proof.
  induction levels as [|b levels IH]; intros s s' Hs.
  - cbn. intros [= <-]. exact Hs.
  - cbn. destruct (step s b) eqn:E; try discriminate.
    apply IH. eapply kept_step; eauto.
Qed.

(** A return hands back the state the sampler was in. *)
Lemma listen_returned levels : forall s n buf,
  listen s levels = Returned n buf ->
  exists pre s' b,
    listen s pre = Polling s' /\ step s' b = Returned n buf.
Proof.
  induction levels as [|b levels IH]; intros s n buf; cbn; [discriminate|].
  destruct (step s b) as [s1|n1 buf1|] eqn:E; try discriminate.
  - intros H. destruct (IH s1 n buf H) as (pre & s' & b' & A & B).
    exists (b :: pre), s', b'. cbn. rewrite E. auto.
  - intros [= <- <-]. exists [], s, b. auto.
Qed.

Lemma step_returned s b n buf :
  step s b = Returned n buf ->
  n = currentpulse s /\ buf = pulses s /\ n <> 0.
Proof.
  unfold step. destruct (pc s), b.
  - destruct (exit_test _ _) eqn:G; [|discriminate]. intros [= <- <-].
    apply exit_test_true_inv in G. auto.
  - destruct (store_high _ _ _); discriminate.
  - destruct (store_low _ _ _); discriminate.
  - destruct (exit_test _ _) eqn:G; [|discriminate]. intros [= <- <-].
    apply exit_test_true_inv in G. auto.
Qed.

(** What every returning capture leaves behind. *)
Lemma listenForIR_kept (buf : list (Z * Z)) levels n buf' :
  length buf = 100%nat ->
  listenForIR buf levels = Returned n buf' ->
  exists s, kept buf s /\ currentpulse s = n /\ pulses s = buf' /\ n <> 0.
Proof.
  intros Hlen H. unfold listenForIR in H.
  apply listen_returned in H as (pre & s & b & A & B).
  apply step_returned in B as (-> & -> & Hn).
  exists s. split; [|auto].
  eapply kept_listen; [apply kept_start, Hlen|exact A].
Qed.

End KeptFacts.

(** X2: whenever [listenForIR] returns, on any levels on which it has
    not stored past the buffer, its result is between 1 and NUMPULSES (it
    never returns 0) and the buffer still has its hundred slots. *)
Theorem listenForIR_returns_1_to_100 (buf : list (Z * Z)) levels n buf' :
  length buf = 100%nat ->
  Capture.listenForIR buf levels = Capture.Returned n buf' ->
  1 <= n <= NUMPULSES /\ length buf' = 100%nat.
Proof.
  intros Hlen H.
  destruct (listenForIR_kept buf levels n buf' Hlen H) as (s & K & <- & <- & Hn).
  destruct K as (Hs & Hcp & _). destruct Hs as (_ & _ & _ & L & _).
  split; [lia|exact L].
Qed.

Lemma listenForIR_returns_1_to_100_witness :
  1 <= 1 <= NUMPULSES /\ length ((3, 2) :: drop 1 blank) = 100%nat.
Proof.
  apply (listenForIR_returns_1_to_100 blank
           (train [(3, 2)] ++ held true (Z.to_nat MAXPULSE)) 1
           ((3, 2) :: drop 1 blank)).
  - reflexivity.
  - vm_compute. reflexivity.
Defined.

(** X3: in the buffer a capture returns, every completed pair other than
    the first holds a high and a low count below MAXPULSE; only slot 0
    can hold a longer pulse. *)
Theorem listenForIR_later_pairs_below_MAXPULSE
    (buf : list (Z * Z)) levels n buf' (i : nat) p :
  length buf = 100%nat ->
  Capture.listenForIR buf levels = Capture.Returned n buf' ->
  (1 <= i)%nat -> Z.of_nat i < n ->
  buf' !! i = Some p ->
  0 <= p.1 < MAXPULSE /\ 0 <= p.2 < MAXPULSE.
Proof.
  intros Hlen H Hi Hlt Hp.
  destruct (listenForIR_kept buf levels n buf' Hlen H) as (s & K & <- & <- & Hn).
  destruct K as (_ & _ & Hdone & _). apply (Hdone i p Hi Hlt Hp).
Qed.

Lemma listenForIR_later_pairs_below_MAXPULSE_witness :
  0 <= (300, 200).1 < MAXPULSE /\ 0 <= (300, 200).2 < MAXPULSE.
Proof.
  apply (listenForIR_later_pairs_below_MAXPULSE blank
           (train [(7000, 3); (300, 200); (10, 20)] ++ held true (Z.to_nat MAXPULSE))
           3 ([(7000, 3); (300, 200); (10, 20)] ++ drop 3 blank) 1 (300, 200)).
  - reflexivity.
  - vm_compute. reflexivity.
  - lia.
  - lia.
  - reflexivity.
Defined.

(** X4: a capture that returns n leaves every slot past n exactly as it
    found it, and the low count of slot n too: a short capture does not
    clear what earlier captures left there. *)
Theorem listenForIR_leaves_rest_of_buffer
    (buf : list (Z * Z)) levels n buf' :
  length buf = 100%nat ->
  Capture.listenForIR buf levels = Capture.Returned n buf' ->
  (forall i : nat, n < Z.of_nat i -> buf' !! i = buf !! i)
  /\ snd <$> (buf' !! Z.to_nat n) = snd <$> (buf !! Z.to_nat n).
Proof.
  intros Hlen H.
  destruct (listenForIR_kept buf levels n buf' Hlen H) as (s & K & <- & <- & Hn).
  destruct K as (_ & _ & _ & Hrest & Hlow & _). split; assumption.
Qed.

Lemma listenForIR_leaves_rest_of_buffer_witness :
  (forall i : nat,
      1 < Z.of_nat i ->
      ((3, 2) :: (4, 9) :: replicate 98 (9, 9)) !! i = replicate 100 (9, 9) !! i)
  /\ snd <$> (((3, 2) :: (4, 9) :: replicate 98 (9, 9)) !! Z.to_nat 1)
     = snd <$> (replicate 100 (9, 9) !! Z.to_nat 1).
Proof.
  apply (listenForIR_leaves_rest_of_buffer (replicate 100 (9, 9))
           (train [(3, 2)] ++ held true 4 ++ held false (Z.to_nat MAXPULSE + 1))).
  - reflexivity.
  - vm_compute. reflexivity.
Defined.

(** ** The code, bit by bit *)

Section DecoderBits.
Import Decoder.

Lemma testbit_bit b k :
  b = 0 \/ b = 1 -> 0 <= k -> Z.testbit b k = (b =? 1) && (k =? 0).
Proof.
  intros [-> | ->] Hk.
  - rewrite Z.bits_0. reflexivity.
  - destruct (Z.eq_dec k 0) as [->|Hne]; [reflexivity|].
    rewrite Z.bits_above_log2 by (cbn; lia).
    symmetry. apply andb_false_iff. right. apply Z.eqb_neq. exact Hne.
Qed.

Lemma testbit_wrap32 x k :
  0 <= k -> Z.testbit (wrap32 x) k = (k <? 32) && Z.testbit x k.
Proof.
  intros Hk. unfold wrap32. destruct (k <? 32) eqn:E.
  - apply Z.ltb_lt in E. rewrite Z.mod_pow2_bits_low by lia. reflexivity.
  - apply Z.ltb_ge in E. rewrite Z.mod_pow2_bits_high by lia. reflexivity.
Qed.

(** One iteration moves every bit up by one place, drops bit 31 and puts
    the new bit in place 0. *)
Lemma testbit_shift_in buf acc i k :
  0 <= k < 32 ->
  Z.testbit (shift_in buf acc i) k
  = if k =? 0 then bit_of (high_at buf i) =? 1 else Z.testbit acc (k - 1).
Proof.
  intros Hk. unfold shift_in.
  rewrite Z.lor_spec. rewrite testbit_wrap32 by lia. rewrite Z.shiftl_spec by lia.
  rewrite (testbit_bit (bit_of (high_at buf i))) by (apply bit_of_cases || lia).
  replace (k <? 32) with true by (symmetry; apply Z.ltb_lt; lia).
  destruct (k =? 0) eqn:E.
  - apply Z.eqb_eq in E. subst k. cbn [Z.sub Z.opp Z.add].
    rewrite Z.testbit_neg_r by lia. cbn. apply andb_true_r.
  - rewrite andb_false_r, orb_false_r. reflexivity.
Qed.

Lemma testbit_fold_shift_in buf acc m : forall k,
  (m <= 32)%nat -> 0 <= k < 32 ->
  Z.testbit (fold_left (shift_in buf) (seq 0 m) acc) k
  = if k <? Z.of_nat m
    then bit_of (high_at buf (m - 1 - Z.to_nat k)) =? 1
    else Z.testbit acc (k - Z.of_nat m).
Proof.
  induction m as [|m IH]; intros k Hm Hk.
  - cbn [seq fold_left]. replace (k <? Z.of_nat 0) with false
      by (symmetry; apply Z.ltb_ge; lia).
    f_equal. lia.
  - rewrite seq_S, fold_left_app. cbn [fold_left Nat.add].
    rewrite testbit_shift_in by exact Hk.
    destruct (k =? 0) eqn:E.
    + apply Z.eqb_eq in E. subst k.
      replace (0 <? Z.of_nat (S m)) with true by (symmetry; apply Z.ltb_lt; lia).
      do 3 f_equal. cbn. lia.
    + apply Z.eqb_neq in E. rewrite IH by lia.
      destruct (k - 1 <? Z.of_nat m) eqn:F.
      * apply Z.ltb_lt in F.
        replace (k <? Z.of_nat (S m)) with true by (symmetry; apply Z.ltb_lt; lia).
        do 3 f_equal. lia.
      * apply Z.ltb_ge in F.
        replace (k <? Z.of_nat (S m)) with false by (symmetry; apply Z.ltb_ge; lia).
        f_equal. lia.
Qed.

End DecoderBits.

(** X5: the code is built most significant bit first: bit 31 - i of the
    decoded code is 1 exactly when the rule gives bit 1 for the high
    count of pair i, for i = 0..31. *)
Theorem decode_bits (buf : list (Z * Z)) (acc : Z) (i : nat) :
  (i < 32)%nat ->
  Z.testbit (Decoder.decode buf acc) (31 - Z.of_nat i)
  = (Decoder.bit_of (Decoder.high_at buf i) =? 1).
Proof.
  intros Hi. unfold Decoder.decode.
  rewrite testbit_fold_shift_in by lia.
  replace (31 - Z.of_nat i <? Z.of_nat 32) with true by (symmetry; apply Z.ltb_lt; lia).
  do 3 f_equal. lia.
Qed.

Lemma decode_bits_witness :
  Z.testbit (Decoder.decode (replicate 100 (300, 0)) 5) (31 - Z.of_nat 0)
  = (Decoder.bit_of (Decoder.high_at (replicate 100 (300, 0)) 0) =? 1).
Proof.
  apply (decode_bits (replicate 100 (300, 0)) 5 0). lia.
Defined.

(** X6: the value [irCode] holds when the decode loop starts (the pair
    count returned by [listenForIR]) never reaches the code: the 32
    shifts push it out entirely. *)
Theorem decode_ignores_accumulator (buf : list (Z * Z)) (acc acc' : Z) :
  Decoder.decode buf acc = Decoder.decode buf acc'.
Proof.
  apply Z.bits_inj'. intros k Hk.
  destruct (Z.lt_ge_cases k 32) as [Hlt|Hge].
  - unfold Decoder.decode. rewrite !testbit_fold_shift_in by lia.
    replace (k <? Z.of_nat 32) with true by (symmetry; apply Z.ltb_lt; lia).
    reflexivity.
  - rewrite <- (wrap32_small (Decoder.decode buf acc)) by apply decode_range.
    rewrite <- (wrap32_small (Decoder.decode buf acc')) by apply decode_range.
    rewrite !testbit_wrap32 by lia.
    replace (k <? 32) with false by (symmetry; apply Z.ltb_ge; lia).
    reflexivity.
Qed.

(** X7: the decoded code is the target code 0xFFFFFFFF exactly when the
    rule gives bit 1 for each of the first 32 high counts. *)
Theorem decode_is_target_iff (buf : list (Z * Z)) (acc : Z) :
  Decoder.decode buf acc = targetCode
  <-> forall i, (i < 32)%nat -> Decoder.bit_of (Decoder.high_at buf i) = 1.
Proof.
  split.
  - intros H i Hi. pose proof (decode_bits buf acc i Hi) as B.
    rewrite H in B. unfold targetCode in B.
    change 0xFFFFFFFF with (Z.ones 32) in B.
    rewrite Z.ones_spec_low in B by lia.
    symmetry in B. apply Z.eqb_eq in B. exact B.
  - intros H. rewrite (decode_uniform buf 1 acc); [reflexivity|now right|exact H].
Qed.

(** X8: the bit rule in ticks, over all 16-bit counts: bit 0 exactly for
    counts 1..249 and, through the 16-bit product, 32769..33017; bit 1 for
    every other count. *)
Theorem bit_of_zero_ranges (t : Z) :
  0 <= t < 65536 ->
  (Decoder.bit_of t = 0 <-> 1 <= t <= 249 \/ 32769 <= t <= 33017).
Proof.
  intros Ht. unfold Decoder.bit_of, Decoder.duration, wrap16, RESOLUTION.
  destruct (Z.lt_ge_cases t 32768) as [Hs|Hb].
  - rewrite Z.mod_small by lia.
    destruct (0 <? t * 2) eqn:A; destruct (t * 2 <? 500) eqn:B; cbn;
      rewrite ?Z.ltb_lt, ?Z.ltb_ge in *; split; intros; try lia; discriminate.
  - replace (t * 2) with ((t * 2 - 65536) + 1 * 2 ^ 16) by lia.
    rewrite Z.mod_add, Z.mod_small by lia.
    destruct (0 <? t * 2 - 65536) eqn:A; destruct (t * 2 - 65536 <? 500) eqn:B; cbn;
      rewrite ?Z.ltb_lt, ?Z.ltb_ge in *; split; intros; try lia; discriminate.
Qed.

Lemma bit_of_zero_ranges_witness :
  Decoder.bit_of 249 = 0 <-> 1 <= 249 <= 249 \/ 32769 <= 249 <= 33017.
Proof.
  apply (bit_of_zero_ranges 249). lia.
Defined.

(** ** Passes of [loop], the counter and the sleep timer *)

Section LoopFacts.
Import Trigger.

(** The tail of [loop] touches the counter and the stamp only. *)
Lemma judge_frame clock d :
  pulses (judge clock d).1 = pulses d
  /\ irCode (judge clock d).1 = irCode d
  /\ prescalarBits (judge clock d).1 = prescalarBits d
  /\ TCCR1 (judge clock d).1 = TCCR1 d
  /\ pcint (judge clock d).1 = pcint d
  /\ led (judge clock d).1 = led d
  /\ timers_on (judge clock d).1 = timers_on d
  /\ usi_on (judge clock d).1 = usi_on d.
Proof.
  unfold judge, on_match, decay.
  destruct (irCode d =? targetCode); cbn;
    match goal with |- context [if ?c then _ else _] => destruct c end;
    cbn; repeat split; reflexivity.
Qed.

Lemma loop_unfolded levels clock d d' b :
  loop levels clock d = Some (d', b) ->
  exists n,
    Capture.listenForIR (pulses d) levels = Capture.Returned n (pulses d')
    /\ irCode d' = Decoder.decode (pulses d') n
    /\ prescalarBits d' = prescalarBits d /\ TCCR1 d' = TCCR1 d
    /\ pcint d' = pcint d /\ led d' = led d
    /\ timers_on d' = timers_on d /\ usi_on d' = usi_on d.
Proof.
  unfold loop.
  destruct (Capture.listenForIR (pulses d) levels) as [|n buf|] eqn:E; try discriminate.
  remember (Decoder.decode buf n) as code eqn:C.
  intros H. injection H as H.
  pose proof (judge_frame clock (with_irCode code (with_pulses buf d))) as F.
  rewrite H in F. cbn in F.
  destruct F as (A1 & A2 & A3 & A4 & A5 & A6 & A7 & A8).
  exists n. rewrite A1.
  split; [reflexivity|]. split; [rewrite A2; exact C|].
  split; [exact A3|]. split; [exact A4|]. split; [exact A5|].
  split; [exact A6|]. split; [exact A7|exact A8].
Qed.

Lemma cycle_quiet d cc :
  0 <= trigger d <= 3 ->
  (cycle d cc).2 = false /\ 0 <= trigger (cycle d cc).1 <= trigger d + 1.
Proof.
  intros Ht. destruct cc as [code clock].
  destruct (Z.eq_dec code targetCode) as [->|Hne].
  - rewrite cycle_hit. cbn [fst snd]. unfold decay; cbn.
    rewrite (wrap8_small (trigger d + 2)) by lia.
    replace (1 <=? trigger d + 2) with true by (symmetry; apply Z.leb_le; lia).
    cbn. rewrite wrap8_small by lia. split; [|lia].
    apply Z.leb_gt. unfold sensitivity. lia.
  - rewrite (cycle_miss d code clock Hne). cbn [fst snd]. split; [reflexivity|].
    unfold decay; cbn. destruct (1 <=? trigger d) eqn:E; cbn.
    + apply Z.leb_le in E. rewrite wrap8_small by lia. lia.
    + lia.
Qed.

Lemma beeps_quiet l : forall d,
  0 <= trigger d -> trigger d + Z.of_nat (length l) <= 4 ->
  beeps d l = replicate (length l) false.
Proof.
  induction l as [|cc l IH]; intros d H0 H4; [reflexivity|].
  cbn [length] in H4. cbn [beeps length replicate].
  destruct (cycle_quiet d cc) as [Q R]; [lia|].
  rewrite Q, IH by lia. reflexivity.
Qed.

Lemma cycle_hit_stamp d clock : triggerTimer (cycle d (targetCode, clock)).1 = millis clock.
Proof.
  rewrite cycle_hit. cbn [fst]. unfold decay.
  match goal with |- context [if ?c then _ else _] => destruct c end; reflexivity.
Qed.

Lemma cycle_miss_stamp d code clock :
  code <> targetCode -> triggerTimer (cycle d (code, clock)).1 = triggerTimer d.
Proof.
  intros H. rewrite (cycle_miss d code clock H). cbn [fst]. unfold decay.
  match goal with |- context [if ?c then _ else _] => destruct c end; reflexivity.
Qed.

End LoopFacts.

(** X9: a pass of [loop] whose capture returned n pairs still decodes 32
    slots: for every pair index i with n < i < 32, bit 31 - i of the new
    [irCode] comes from the high count that slot i held before the
    capture. *)
Theorem loop_short_capture_decodes_stale_slots
    (levels : list bool) (clock : Z) (d d' : device) (b : bool) :
  length (pulses d) = 100%nat ->
  loop levels clock d = Some (d', b) ->
  exists n,
    Capture.listenForIR (pulses d) levels = Capture.Returned n (pulses d')
    /\ forall i : nat,
         n < Z.of_nat i -> (i < 32)%nat ->
         Z.testbit (irCode d') (31 - Z.of_nat i)
         = (Decoder.bit_of (Decoder.high_at (pulses d) i) =? 1).
Proof.
  intros Hlen H.
  destruct (loop_unfolded levels clock d d' b H) as (n & Hcap & Hcode & _).
  exists n. split; [exact Hcap|]. intros i Hn Hi.
  destruct (listenForIR_kept (pulses d) levels n (pulses d') Hlen Hcap)
    as (s & K & Hcp & Hbuf & _).
  destruct K as (_ & _ & _ & Hrest & _).
  rewrite Hcode. unfold Decoder.decode.
  rewrite testbit_fold_shift_in by lia.
  replace (31 - Z.of_nat i <? Z.of_nat 32) with true by (symmetry; apply Z.ltb_lt; lia).
  replace (32 - 1 - Z.to_nat (31 - Z.of_nat i))%nat with i by lia.
  unfold Decoder.high_at. rewrite <- Hbuf, Hrest by lia. reflexivity.
Qed.

Lemma loop_short_capture_decodes_stale_slots_witness :
  exists d' b,
    loop (train [(3, 2)] ++ held true (Z.to_nat MAXPULSE)) 10
         (with_pulses (replicate 100 (300, 300)) (power_on 0 1)) = Some (d', b)
    /\ exists n,
         Capture.listenForIR
           (pulses (with_pulses (replicate 100 (300, 300)) (power_on 0 1)))
           (train [(3, 2)] ++ held true (Z.to_nat MAXPULSE))
         = Capture.Returned n (pulses d')
         /\ forall i : nat,
              n < Z.of_nat i -> (i < 32)%nat ->
              Z.testbit (irCode d') (31 - Z.of_nat i)
              = (Decoder.bit_of
                   (Decoder.high_at
                      (pulses (with_pulses (replicate 100 (300, 300)) (power_on 0 1))) i)
                 =? 1).
Proof.
  eexists. eexists. split.
  - vm_compute. reflexivity.
  - eapply (loop_short_capture_decodes_stale_slots
              (train [(3, 2)] ++ held true (Z.to_nat MAXPULSE)) 10
              (with_pulses (replicate 100 (300, 300)) (power_on 0 1))).
    + reflexivity.
    + vm_compute. reflexivity.
Defined.

(** X10: a beep needs a counter of at least 4 before the match: from a
    counter t >= 0, no cycle among the next 4 - t calls [beep], whatever
    codes are decoded; from 0 (after [setup] or a nap) the fifth
    consecutive match is the earliest that can. *)
Theorem no_beep_while_counter_low (d : device) (l : list (Z * Z)) :
  0 <= trigger d ->
  trigger d + Z.of_nat (length l) <= 4 ->
  Trigger.beeps d l = replicate (length l) false
  /\ 0 <= trigger (Trigger.cycles d l) <= trigger d + Z.of_nat (length l).
Proof.
  revert d. induction l as [|cc l IH]; intros d H0 H4.
  - cbn. split; [reflexivity|lia].
  - cbn [length] in H4.
    destruct (cycle_quiet d cc) as [Q R]; [lia|].
    destruct (IH (Trigger.cycle d cc).1) as [B T]; [lia|lia|].
    unfold Trigger.cycles in *. cbn [Trigger.beeps length replicate fold_left].
    rewrite Q, B. split; [reflexivity|]. lia.
Qed.

Lemma no_beep_while_counter_low_witness :
  Trigger.beeps (power_on 0 1)
    [(targetCode, 1); (targetCode, 2); (targetCode, 3); (targetCode, 4)]
  = replicate (length [(targetCode, 1); (targetCode, 2); (targetCode, 3); (targetCode, 4)])
      false
  /\ 0 <= trigger (Trigger.cycles (power_on 0 1)
                     [(targetCode, 1); (targetCode, 2); (targetCode, 3); (targetCode, 4)])
       <= trigger (power_on 0 1)
          + Z.of_nat (length [(targetCode, 1); (targetCode, 2); (targetCode, 3); (targetCode, 4)]).
Proof.
  apply (no_beep_while_counter_low (power_on 0 1)).
  - cbn. lia.
  - cbn. lia.
Defined.

(** X11: a cycle that decodes the target code stamps [triggerTimer], so a
    timer interrupt firing less than sleepTimeout milliseconds after it
    leaves the device awake and unchanged. *)
Theorem match_postpones_sleep (d : device) (clock elapsed woke : Z) :
  0 <= elapsed < sleepTimeout ->
  Power.ISR_TIMER1_COMPA (clock + elapsed) woke (Trigger.cycle d (targetCode, clock)).1
  = ((Trigger.cycle d (targetCode, clock)).1, Power.Awake).
Proof.
  intros He.
  destruct (ISR_cases (clock + elapsed) woke (Trigger.cycle d (targetCode, clock)).1)
    as [[H E]|[H E]]; [|exact E].
  rewrite (idle_elapsed _ clock elapsed) in H.
  - lia.
  - apply cycle_hit_stamp.
  - unfold sleepTimeout in He. lia.
Qed.

Lemma match_postpones_sleep_witness :
  Power.ISR_TIMER1_COMPA (100000 + 3999) 0
    (Trigger.cycle (power_on 0 1) (targetCode, 100000)).1
  = ((Trigger.cycle (power_on 0 1) (targetCode, 100000)).1, Power.Awake).
Proof.
  apply (match_postpones_sleep (power_on 0 1) 100000 3999 0).
  unfold sleepTimeout. lia.
Defined.


(** X12: a cycle whose code is not the target leaves [triggerTimer] as it
    was, so the timer interrupt decides as if the cycle had not
    happened. *)
Theorem miss_does_not_postpone_sleep (d : device) (code clock tick woke : Z) :
  code <> targetCode ->
  triggerTimer (Trigger.cycle d (code, clock)).1 = triggerTimer d
  /\ (Power.ISR_TIMER1_COMPA tick woke (Trigger.cycle d (code, clock)).1).2
     = (Power.ISR_TIMER1_COMPA tick woke d).2.
Proof.
  intros H. pose proof (cycle_miss_stamp d code clock H) as S. split; [exact S|].
  unfold Power.ISR_TIMER1_COMPA, idle. rewrite S.
  destruct (sleepTimeout <=? _); reflexivity.
Qed.

Lemma miss_does_not_postpone_sleep_witness :
  triggerTimer (Trigger.cycle (power_on 0 1) (5, 3000)).1 = triggerTimer (power_on 0 1)
  /\ (Power.ISR_TIMER1_COMPA 4200 9000 (Trigger.cycle (power_on 0 1) (5, 3000)).1).2
     = (Power.ISR_TIMER1_COMPA 4200 9000 (power_on 0 1)).2.
Proof.
  apply (miss_does_not_postpone_sleep (power_on 0 1) 5 3000 4200 9000).
  unfold targetCode. lia.
Defined.

(** X13: the sleep test works on the 32-bit difference
    millis() - triggerTimer, so it is right across the roll-over of
    millis(): for a stamp taken at any time and any real elapsed time below
    2^32 ms, the handler stays awake exactly when less than sleepTimeout
    has elapsed. *)
Theorem nap_decision_survives_rollover (d : device) (stamp elapsed woke : Z) :
  triggerTimer d = millis stamp ->
  0 <= elapsed < 2 ^ 32 ->
  ((Power.ISR_TIMER1_COMPA (stamp + elapsed) woke d).2 = Power.Awake
   <-> elapsed < sleepTimeout).
Proof.
  intros Hs He.
  pose proof (idle_elapsed d stamp elapsed Hs ltac:(lia)) as I.
  destruct (ISR_cases (stamp + elapsed) woke d) as [[H E]|[H E]];
    rewrite E; cbn [snd]; rewrite I in H; split; intros; try lia;
    try reflexivity; discriminate.
Qed.

Lemma nap_decision_survives_rollover_witness :
  (Power.ISR_TIMER1_COMPA (4294967000 + 5000) 0 (power_on 4294967000 1)).2 = Power.Awake
  <-> 5000 < sleepTimeout.
Proof.
  apply (nap_decision_survives_rollover (power_on 4294967000 1) 4294967000 5000 0).
  - reflexivity.
  - lia.
Defined.

Section PowerConfig.
Import Power.




End PowerConfig.

Section TimerFacts.
Import Timer.

Lemma wrap8_succ z : wrap8 (wrap8 z + 1) = wrap8 (z + 1).
Proof. unfold wrap8. apply Z.add_mod_idemp_l. lia. Qed.

(** The halving loop stops within the fuel when the start value is below
    [2 ^ (8 + fuel)], having halved [k] times. *)
Lemma scan_spec fuel : forall ocr0 bits0,
  0 <= ocr0 < 2 ^ (8 + Z.of_nat fuel) ->
  exists k,
    0 <= k <= Z.of_nat fuel
    /\ scan fuel ocr0 bits0
       = Some (ocr0 / 2 ^ k, if k =? 0 then bits0 else wrap8 (bits0 + k))
    /\ 0 <= ocr0 / 2 ^ k <= 255
    /\ (0 < k -> 128 <= ocr0 / 2 ^ k)
    /\ (k = 0 <-> ocr0 <= 255).
Proof.
  induction fuel as [|fuel IH]; intros ocr0 bits0 H.
  - exists 0. cbn [scan]. change (2 ^ (8 + Z.of_nat 0)) with 256 in H.
    replace (255 <? ocr0) with false by (symmetry; apply Z.ltb_ge; lia).
    rewrite Z.pow_0_r, Z.div_1_r. cbn. repeat split; lia.
  - cbn [scan]. destruct (255 <? ocr0) eqn:E.
    + apply Z.ltb_lt in E.
      assert (Hhalf : 0 <= ocr0 / 2 < 2 ^ (8 + Z.of_nat fuel)).
      { split; [apply Z.div_pos; lia|].
        apply Z.div_lt_upper_bound; [lia|].
        replace (8 + Z.of_nat (S fuel)) with (Z.succ (8 + Z.of_nat fuel)) in H by lia.
        rewrite Z.pow_succ_r in H by lia. lia. }
      destruct (IH (ocr0 / 2) (wrap8 (bits0 + 1)) Hhalf) as (k & Hk & S & R & G & Z0).
      exists (k + 1).
      assert (D : ocr0 / 2 ^ (k + 1) = ocr0 / 2 / 2 ^ k).
      { rewrite Z.pow_add_r, Z.pow_1_r by lia.
        rewrite (Z.mul_comm (2 ^ k) 2). rewrite Z.div_div by lia. reflexivity. }
      rewrite D, S.
      replace (k + 1 =? 0) with false by (symmetry; apply Z.eqb_neq; lia).
      split; [lia|]. split.
      * do 2 f_equal. destruct (k =? 0) eqn:K.
        -- apply Z.eqb_eq in K. subst k. reflexivity.
        -- unfold wrap8. rewrite Z.add_mod_idemp_l by lia. f_equal. lia.
      * split; [exact R|]. split; [|lia].
        intros _. destruct (Z.eq_dec k 0) as [->|Hne].
        -- rewrite Z.pow_0_r, Z.div_1_r.
           apply Z.div_le_lower_bound; lia.
        -- apply G. lia.
    + apply Z.ltb_ge in E. exists 0.
      rewrite Z.pow_0_r, Z.div_1_r. cbn. repeat split; lia.
Qed.

End TimerFacts.

(** X14: a nap clears the counter and nothing else of the data: the
    buffer and [irCode] are kept, and the four cycles after the wake-up
    cannot beep. *)
Theorem nap_needs_five_matches_again
    (d d' : device) (clock woke t : Z) (l : list (Z * Z)) :
  Power.ISR_TIMER1_COMPA clock woke d = (d', Power.Napped t) ->
  (length l <= 4)%nat ->
  trigger d' = 0
  /\ Trigger.beeps d' l = replicate (length l) false
  /\ pulses d' = pulses d /\ irCode d' = irCode d.
Proof.
  intros H Hl.
  destruct (ISR_cases clock woke d) as [[_ E]|[_ E]]; rewrite E in H;
    [|discriminate].
  injection H as <- _.
  split; [reflexivity|]. split; [|split; reflexivity].
  apply beeps_quiet; cbn [trigger Trigger.with_triggerTimer Power.naptime
                           Power.rouse Power.doze]; lia.
Qed.

Lemma nap_needs_five_matches_again_witness :
  trigger (Power.ISR_TIMER1_COMPA 5000 6000 (Trigger.with_trigger 9 (power_on 0 1))).1 = 0
  /\ Trigger.beeps (Power.ISR_TIMER1_COMPA 5000 6000 (Trigger.with_trigger 9 (power_on 0 1))).1
       [(targetCode, 6001); (targetCode, 6002)]
     = replicate (length [(targetCode, 6001); (targetCode, 6002)]) false
  /\ pulses (Power.ISR_TIMER1_COMPA 5000 6000 (Trigger.with_trigger 9 (power_on 0 1))).1
     = pulses (Trigger.with_trigger 9 (power_on 0 1))
  /\ irCode (Power.ISR_TIMER1_COMPA 5000 6000 (Trigger.with_trigger 9 (power_on 0 1))).1
     = irCode (Trigger.with_trigger 9 (power_on 0 1)).
Proof.
  apply (nap_needs_five_matches_again (Trigger.with_trigger 9 (power_on 0 1))
           _ 5000 6000 5000 [(targetCode, 6001); (targetCode, 6002)]).
  - vm_compute. reflexivity.
  - cbn. lia.
Defined.

(** ** Timer set-up *)

Lemma lor_0x90_nibble b : 0 <= b <= 15 -> Z.lor 0x90 b = 0x90 + b.
Proof.
  intros H.
  assert (b = 0 \/ b = 1 \/ b = 2 \/ b = 3 \/ b = 4 \/ b = 5 \/ b = 6 \/ b = 7 \/
          b = 8 \/ b = 9 \/ b = 10 \/ b = 11 \/ b = 12 \/ b = 13 \/ b = 14 \/ b = 15)
    as C by lia.
  repeat (destruct C as [->|C]; [reflexivity|]). subst b. reflexivity.
Qed.

Lemma pow2_bound k m ocr0 :
  0 <= k -> 0 <= m -> 128 <= ocr0 / 2 ^ k -> ocr0 < 128 * 2 ^ m -> k < m.
Proof.
  intros Hk Hm H128 Hlt.
  destruct (Z.lt_ge_cases k m) as [?|Hge]; [assumption|exfalso].
  pose proof (Z.pow_le_mono_r 2 m k ltac:(lia) Hge) as P.
  pose proof (Z.mul_div_le ocr0 (2 ^ k) ltac:(apply Z.pow_pos_nonneg; lia)) as Q.
  assert (0 < 2 ^ k) by (apply Z.pow_pos_nonneg; lia).
  nia.
Qed.

(** X15: [setPrescalar] terminates for every 32-bit compare value: after
    k <= 24 halvings (none when the value is at most 255) [ocr] is the
    start value divided by 2^k and fits 8 bits, it is at least 128 when
    anything was halved, and [prescalarBits] has grown by k. *)
Theorem setPrescalar_halves_into_8_bits (ocr0 bits0 : Z) :
  0 <= ocr0 < 2 ^ 32 ->
  0 <= bits0 < 256 ->
  exists k t,
    0 <= k <= 24
    /\ Timer.setPrescalar ocr0 bits0 = Some t
    /\ Timer.ocr t = ocr0 / 2 ^ k
    /\ Timer.bits t = wrap8 (bits0 + k)
    /\ 0 <= Timer.ocr t <= 255
    /\ (255 < ocr0 -> 128 <= Timer.ocr t)
    /\ (ocr0 <= 255 -> k = 0).
Proof.
  intros Ho Hb.
  destruct (scan_spec 32 ocr0 bits0) as (k & Hk & S & R & G & Z0).
  { change (2 ^ (8 + Z.of_nat 32)) with (2 ^ 40). lia. }
  unfold Timer.setPrescalar. rewrite S.
  eexists k, _. split; [|split; [reflexivity|]]; cbn.
  - split; [lia|]. destruct (Z.eq_dec k 0) as [->|Hne]; [lia|].
    assert (k < 25); [|lia].
    apply (pow2_bound k 25 ocr0); first [lia|apply G; lia].
  - split; [reflexivity|]. split.
    + destruct (k =? 0) eqn:K; [|reflexivity].
      apply Z.eqb_eq in K. subst k. rewrite Z.add_0_r, wrap8_small; lia.
    + split; [exact R|]. split.
      * intros H. apply G. destruct (Z.eq_dec k 0) as [K|K]; [apply Z0 in K|]; lia.
      * intros H. apply Z0. exact H.
Qed.

Lemma setPrescalar_halves_into_8_bits_witness :
  exists k t,
    0 <= k <= 24
    /\ Timer.setPrescalar 1000000 1 = Some t
    /\ Timer.ocr t = 1000000 / 2 ^ k
    /\ Timer.bits t = wrap8 (1 + k)
    /\ 0 <= Timer.ocr t <= 255
    /\ (255 < 1000000 -> 128 <= Timer.ocr t)
    /\ (1000000 <= 255 -> k = 0).
Proof.
  apply (setPrescalar_halves_into_8_bits 1000000 1); lia.
Defined.

(** The halving loop on the initial compare value of a clock of 8 Hz up
    to 2^25 Hz. *)
Lemma prescaler_scan (F_CPU : Z) :
  8 <= F_CPU < 2 ^ 25 ->
  exists k,
    0 <= k <= 14
    /\ Timer.ocr_init F_CPU = F_CPU / 8
    /\ Timer.scan 32 (F_CPU / 8) 1 = Some (F_CPU / 8 / 2 ^ k, 1 + k)
    /\ 1 <= F_CPU / 8 / 2 ^ k <= 255.
Proof.
  intros HF.
  assert (Hinit : Timer.ocr_init F_CPU = F_CPU / 8).
  { unfold Timer.ocr_init, Timer.BPM. change (260 / 30) with 8.
    apply wrap32_small. split; [apply Z.div_pos; lia|].
    apply Z.div_lt_upper_bound; lia. }
  assert (Hrange : 1 <= F_CPU / 8 < 2 ^ 22).
  { split; [apply Z.div_le_lower_bound; lia|apply Z.div_lt_upper_bound; lia]. }
  destruct (scan_spec 32 (F_CPU / 8) 1) as (k & Hk & S & R & G & Z0).
  { change (2 ^ (8 + Z.of_nat 32)) with (2 ^ 40). lia. }
  assert (Hk14 : k <= 14).
  { destruct (Z.eq_dec k 0) as [->|Hne]; [lia|].
    assert (k < 15); [|lia].
    apply (pow2_bound k 15 (F_CPU / 8)); first [lia|apply G; lia]. }
  assert (Hbits : (if k =? 0 then 1 else wrap8 (1 + k)) = 1 + k).
  { destruct (k =? 0) eqn:K.
    - apply Z.eqb_eq in K. lia.
    - apply wrap8_small. lia. }
  assert (Hpos : 1 <= F_CPU / 8 / 2 ^ k).
  { destruct (Z.eq_dec k 0) as [->|Hne].
    - rewrite Z.pow_0_r, Z.div_1_r. lia.
    - assert (128 <= F_CPU / 8 / 2 ^ k) by (apply G; lia). lia. }
  exists k. rewrite S, Hbits. repeat split; solve [lia|exact Hinit].
Qed.

(** X16: for a clock of 8 Hz up to 2^25 Hz, [setPrescalar] started from
    the initialisers chooses prescaler bits 1 + k <= 15, which fit the low
    nibble of TCCR1 beside 0x90, a compare value F_CPU / (8 * 2^k) between
    1 and 255, and writes that value minus one to OCR1C. *)
Theorem setPrescalar_register_values (F_CPU : Z) :
  8 <= F_CPU < 2 ^ 25 ->
  exists k t,
    0 <= k <= 14
    /\ Timer.setPrescalar (Timer.ocr_init F_CPU) 1 = Some t
    /\ Timer.bits t = 1 + k
    /\ Timer.tccr1 t = 0x90 + Timer.bits t
    /\ Timer.ocr t = F_CPU / (8 * 2 ^ k)
    /\ 1 <= Timer.ocr t <= 255
    /\ Timer.ocr1c t = Timer.ocr t - 1.
Proof.
  intros HF.
  destruct (prescaler_scan F_CPU HF) as (k & Hk & Hinit & S & R).
  unfold Timer.setPrescalar. rewrite Hinit, S.
  eexists k, _. split; [exact Hk|]. split; [reflexivity|]. cbn.
  split; [reflexivity|]. split; [apply lor_0x90_nibble; lia|].
  split; [apply Z.div_div; [lia|apply Z.pow_pos_nonneg; lia]|].
  split; [exact R|]. apply wrap8_small. lia.
Qed.

Lemma setPrescalar_register_values_witness :
  exists k t,
    0 <= k <= 14
    /\ Timer.setPrescalar (Timer.ocr_init 8000000) 1 = Some t
    /\ Timer.bits t = 1 + k
    /\ Timer.tccr1 t = 0x90 + Timer.bits t
    /\ Timer.ocr t = 8000000 / (8 * 2 ^ k)
    /\ 1 <= Timer.ocr t <= 255
    /\ Timer.ocr1c t = Timer.ocr t - 1.
Proof.
  apply (setPrescalar_register_values 8000000). lia.
Defined.




(** ** The tone *)

Section SoundFacts.
Import Sound.

Lemma square_waited n pin us : waited (square n pin us) = Z.of_nat n * (2 * us).
Proof. induction n as [|n IH]; [reflexivity|]. cbn [square waited]. rewrite IH. lia. Qed.

Lemma square_rises n pin us : rises pin (square n pin us) = Z.of_nat n.
Proof.
  induction n as [|n IH]; [reflexivity|]. cbn [square rises].
  rewrite Z.eqb_refl, IH. lia.
Qed.

(** [beep] for a positive frequency and a duration that overflows
    nothing: the loop runs [time * 1000 / (2 * delay)] times with
    [delay = 1000000 / frequency]. *)
Lemma beep_defined pin f t :
  0 < f <= 32767 ->
  0 <= t -> t * 1000 < 2 ^ 31 ->
  t * 1000 / (2 * (1000000 / f)) <= 32767 ->
  30 <= 1000000 / f <= 1000000
  /\ 0 <= t * 1000 / (2 * (1000000 / f))
  /\ beep pin f t
     = Some (square (Z.to_nat (t * 1000 / (2 * (1000000 / f)))) pin
               (wrap16 (1000000 / f))).
Proof.
  intros Hf Ht Hlong Hloop.
  assert (Hd : 30 <= 1000000 / f <= 1000000).
  { split; [apply Z.div_le_lower_bound; lia|apply Z.div_le_upper_bound; lia]. }
  assert (Hn : 0 <= t * 1000 / (2 * (1000000 / f))) by (apply Z.div_pos; lia).
  split; [exact Hd|]. split; [exact Hn|].
  unfold beep.
  replace (f =? 0) with false by (symmetry; apply Z.eqb_neq; lia).
  rewrite (Z.quot_div_nonneg 1000000 f) by lia.
  replace (fits_long (t * 1000)) with true.
  2:{ symmetry. unfold fits_long. apply andb_true_iff. split.
      - apply Z.leb_le. lia.
      - apply Z.ltb_lt. exact Hlong. }
  cbn [negb].
  replace (1000000 / f * 2 =? 0) with false by (symmetry; apply Z.eqb_neq; lia).
  rewrite (Z.quot_div_nonneg (t * 1000)) by lia.
  rewrite (Z.mul_comm (1000000 / f) 2).
  replace (32767 <? t * 1000 / (2 * (1000000 / f))) with false
    by (symmetry; apply Z.ltb_ge; exact Hloop).
  reflexivity.
Qed.

End SoundFacts.

(** X18: for a frequency of 16 Hz to 32767 Hz and a duration that keeps
    the loop counter within an int, [beep] drives whole periods of
    2 * (1000000 / f) microseconds and the time it waits in total is at
    most the requested duration and short of it by less than one
    period. *)
Theorem beep_lasts_the_requested_time (pin f t : Z) :
  16 <= f <= 32767 ->
  0 <= t -> t * 1000 < 2 ^ 31 ->
  t * 1000 / (2 * (1000000 / f)) <= 32767 ->
  exists acts,
    Sound.beep pin f t = Some acts
    /\ Sound.waited acts = Sound.rises pin acts * (2 * (1000000 / f))
    /\ t * 1000 - 2 * (1000000 / f) < Sound.waited acts <= t * 1000.
Proof.
  intros Hf Ht Hlong Hloop.
  destruct (beep_defined pin f t) as (Hd & Hn & B); try lia.
  assert (Hd16 : 1000000 / f <= 62500) by (apply Z.div_le_upper_bound; lia).
  rewrite wrap16_small in B by lia.
  eexists. split; [exact B|].
  rewrite square_waited, square_rises, Z2Nat.id by exact Hn.
  split; [reflexivity|].
  set (p := 2 * (1000000 / f)) in *.
  pose proof (Z.mul_div_le (t * 1000) p ltac:(lia)).
  pose proof (Z.mul_succ_div_gt (t * 1000) p ltac:(lia)).
  lia.
Qed.

Lemma beep_lasts_the_requested_time_witness :
  exists acts,
    Sound.beep 4 10000 500 = Some acts
    /\ Sound.waited acts = Sound.rises 4 acts * (2 * (1000000 / 10000))
    /\ 500 * 1000 - 2 * (1000000 / 10000) < Sound.waited acts <= 500 * 1000.
Proof.
  apply (beep_lasts_the_requested_time 4 10000 500).
  - lia.
  - lia.
  - lia.
  - vm_compute. discriminate.
Defined.

(** X19: the half period is a whole period of the requested frequency:
    when f divides 1000000, [beep] drives t * f / 2000 rising edges in t
    milliseconds, the tone of f / 2 Hz (2500 edges for the sketch's call
    with 10000 Hz and 500 ms). *)
Theorem beep_sounds_at_half_the_frequency (pin f t : Z) :
  16 <= f <= 32767 ->
  1000000 mod f = 0 ->
  0 <= t -> t * 1000 < 2 ^ 31 ->
  t * f / 2000 <= 32767 ->
  exists acts,
    Sound.beep pin f t = Some acts
    /\ Sound.rises pin acts = t * f / 2000
    /\ Sound.waited acts = Sound.rises pin acts * (2 * (1000000 / f)).
Proof.
  intros Hf Hdiv Ht Hlong Hloop.
  assert (Hd : 1000000 = f * (1000000 / f)).
  { pose proof (Z.div_mod 1000000 f ltac:(lia)). lia. }
  assert (Hcount : t * 1000 / (2 * (1000000 / f)) = t * f / 2000).
  { assert (Hd30 : 30 <= 1000000 / f) by (apply Z.div_le_lower_bound; lia).
    rewrite <- (Z.div_mul_cancel_l (t * 1000) (2 * (1000000 / f)) f) by lia.
    replace (f * (2 * (1000000 / f))) with (1000 * 2000) by lia.
    replace (f * (t * 1000)) with (1000 * (t * f)) by lia.
    apply Z.div_mul_cancel_l; lia. }
  destruct (beep_defined pin f t) as (Hr & Hn & B); try lia.
  assert (Hd16 : 1000000 / f <= 62500) by (apply Z.div_le_upper_bound; lia).
  rewrite wrap16_small in B by lia.
  eexists. split; [exact B|].
  rewrite square_waited, square_rises, Z2Nat.id by exact Hn.
  split; [exact Hcount|reflexivity].
Qed.

Lemma beep_sounds_at_half_the_frequency_witness :
  exists acts,
    Sound.beep 4 10000 500 = Some acts
    /\ Sound.rises 4 acts = 500 * 10000 / 2000
    /\ Sound.waited acts = Sound.rises 4 acts * (2 * (1000000 / 10000)).
Proof.
  apply (beep_sounds_at_half_the_frequency 4 10000 500).
  - lia.
  - reflexivity.
  - lia.
  - lia.
  - vm_compute. discriminate.
Defined.

(** X20: with a positive frequency, a duration of zero or less drives
    nothing at all. *)
Theorem beep_is_silent_for_no_time (pin f t : Z) :
  0 < f <= 32767 ->
  - 2147483 <= t <= 0 ->
  Sound.beep pin f t = Some [].
Proof.
  intros Hf Ht. unfold Sound.beep.
  replace (f =? 0) with false by (symmetry; apply Z.eqb_neq; lia).
  rewrite (Z.quot_div_nonneg 1000000 f) by lia.
  assert (Hd : 30 <= 1000000 / f) by (apply Z.div_le_lower_bound; lia).
  replace (Sound.fits_long (t * 1000)) with true.
  2:{ symmetry. unfold Sound.fits_long. apply andb_true_iff. split.
      - apply Z.leb_le. lia.
      - apply Z.ltb_lt. lia. }
  cbn [negb].
  replace (1000000 / f * 2 =? 0) with false by (symmetry; apply Z.eqb_neq; lia).
  assert (Hq : Z.quot (t * 1000) (1000000 / f * 2) <= 0).
  { replace (t * 1000) with (- (- t * 1000)) by lia.
    rewrite Z.quot_opp_l by lia.
    pose proof (Z.quot_pos (- t * 1000) (1000000 / f * 2) ltac:(lia) ltac:(lia)). lia. }
  replace (32767 <? Z.quot (t * 1000) (1000000 / f * 2)) with false
    by (symmetry; apply Z.ltb_ge; lia).
  rewrite Z2Nat.nonpos by exact Hq. reflexivity.
Qed.

Lemma beep_is_silent_for_no_time_witness : Sound.beep 4 10000 0 = Some [].
Proof.
  apply (beep_is_silent_for_no_time 4 10000 0); lia.
Defined.
